(** * lightningstream, package syncer: utils.go

    A shallow embedding of [syncer/utils.go] and the properties of its
    snapshot extractor ([readDBI]), identity naming ([instanceID]),
    environment lifecycle ([openEnv], [closeEnv]) and stats monitor
    ([startStatsLogger]).

    Go values are modelled as follows.
    - [[]byte] is a [list byte]; [len], [val[:n]] and [val[n:]] are
      [length], [firstn] and [skipn].
    - [uint64] and [uint] are [Z], with the bit operations of [Z].
    - [string] is [string], a sequence of bytes as in Go.
    - [(T, error)] results are a sum, [inl] carrying the error. *)

From Stdlib Require Import ZArith List String Ascii Bool Lia PeanoNat.
From Stdlib Require Import Strings.Byte.
Import ListNotations.

Local Open Scope string_scope.
Local Open Scope list_scope.
Local Open Scope Z_scope.

(** ** Byte slices *)

Definition bytes := list byte.

(** [uint64(b)] for a byte [b]. *)
Definition u64 (b : byte) : Z := Z.of_N (Byte.to_N b).

(** [byte(v)] for an unsigned integer [v]: the low eight bits. *)
Definition byte_of_Z (v : Z) : byte :=
  match Byte.of_N (Z.to_N (v mod 2 ^ 8)) with
  | Some b => b
  | None => x00
  end.

(** [bytes.Equal]. *)
Fixpoint bytes_Equal (a b : bytes) : bool :=
  match a, b with
  | [], [] => true
  | x :: a', y :: b' => Byte.eqb x y && bytes_Equal a' b'
  | _, _ => false
  end.

(** ** encoding/binary, big endian *)

Module binary.

(** [binary.BigEndian.Uint64]: the first eight bytes of [b], most
    significant first.  Go panics on a shorter slice; [readDBI] calls it on
    [val[:HeaderSize]] only, after the length check. *)
Definition BigEndian_Uint64 (b : bytes) : Z :=
  match b with
  | b0 :: b1 :: b2 :: b3 :: b4 :: b5 :: b6 :: b7 :: _ =>
      Z.lor (u64 b7)
     (Z.lor (Z.shiftl (u64 b6) 8)
     (Z.lor (Z.shiftl (u64 b5) 16)
     (Z.lor (Z.shiftl (u64 b4) 24)
     (Z.lor (Z.shiftl (u64 b3) 32)
     (Z.lor (Z.shiftl (u64 b2) 40)
     (Z.lor (Z.shiftl (u64 b1) 48)
            (Z.shiftl (u64 b0) 56)))))))
  | _ => 0
  end.

(** [binary.BigEndian.PutUint64], as the slice it fills: the writers of the
    timestamp header use it, the spec calls it [bigEndian64]. *)
Definition BigEndian_PutUint64 (v : Z) : bytes :=
  [ byte_of_Z (Z.shiftr v 56); byte_of_Z (Z.shiftr v 48);
    byte_of_Z (Z.shiftr v 40); byte_of_Z (Z.shiftr v 32);
    byte_of_Z (Z.shiftr v 24); byte_of_Z (Z.shiftr v 16);
    byte_of_Z (Z.shiftr v 8);  byte_of_Z v ].

End binary.

(** ** Errors and results *)

Inductive error : Type :=
  (** [ErrNoTimestamp{DBIName, Key}] *)
  | ErrNoTimestamp (DBIName : string) (Key : bytes)
  (** [fmt.Errorf(format, args...)], kept as the call: format and arguments *)
  | Errorf (format : string) (args : list string)
  (** an error returned by the storage engine, opaque to this package *)
  | EngineError (msg : string).

Definition result (A : Type) : Type := (error + A)%type.

Definition ret {A} (a : A) : result A := inr a.
Definition raise {A} (e : error) : result A := inl e.
Definition bind {A B} (m : result A) (k : A -> result B) : result B :=
  match m with
  | inl e => inl e
  | inr a => k a
  end.

Notation "x <- m ;; k" := (bind m (fun x => k))
  (at level 61, m at next level, right associativity).
Notation "' p <- m ;; k" := (bind m (fun x => match x with p => k end))
  (at level 61, p pattern, m at next level, right associativity).

(** ** The storage engine, as this package sees it *)

Module lmdb.

(** [lmdb.DBI], a table handle. *)
Definition DBI := Z.

(** [lmdb.Stat]; only [Entries] is read here. *)
Record Stat : Type := { Entries : Z }.

(** [*lmdb.Env], an environment handle. *)
Definition Env := Z.

(** [lmdb.EnvInfo]; the two fields that are logged. *)
Record EnvInfo : Type := { MapSize : Z; LastTxnID : Z }.

(** [lmdb.DupSort], the flag of tables with several values per key
    ([MDB_DUPSORT]). *)
Definition DupSort : Z := 4.

End lmdb.

Module lmdbenv.

(** Modelled from the spec: the key/value pair of package [lmdbenv], as
    [lmdbenv.ReadDBI] yields it from the cursor; [readDBI] reads its fields
    [Key] and [Val].  The engine stores no empty key and hands out keys as
    non-nil slices, so the only nil [[]byte] that [readDBI] compares is the
    initial [prev]. *)
Record KV : Type := { Key : bytes; Val : bytes }.

End lmdbenv.

(** A read transaction: the calls [readDBI] makes on it, each of which may
    fail.  [ReadDBI] stands for [lmdbenv.ReadDBI(txn, dbi)], which yields all
    pairs of the table in the engine's iteration order. *)
Record Txn : Type := {
  OpenDBI : string -> Z -> result lmdb.DBI;
  Stat : lmdb.DBI -> result lmdb.Stat;
  Flags : lmdb.DBI -> result Z;
  ReadDBI : lmdb.DBI -> result (list lmdbenv.KV)
}.

(** ** The snapshot *)

Module snapshot.

(** Modelled from the spec: the [KV] record of package [snapshot] (key,
    value without its header, timestamp in nanoseconds). *)
Record KV : Type := {
  Key : bytes;
  Value : bytes;
  TimestampNano : Z
}.

(** Modelled from the spec: the [DBI] record of package [snapshot] (table
    name, flags bitmask, entries in iteration order). *)
Record DBI : Type := {
  Name : string;
  Entries : list KV;
  Flags : Z
}.

End snapshot.

(** ** The syncer *)

(** [HeaderSize] is the size of the timestamp header of each value, in
    bytes. *)
Definition HeaderSize : nat := 8.

(** [SyncDBIPrefix] is the shared DBI name prefix for all special tables
    that must not be synced. *)
Definition SyncDBIPrefix : string := "_sync".

(** [SyncDBIShadowPrefix] is the DBI name prefix of shadow databases. *)
Definition SyncDBIShadowPrefix : string := "_sync_".

(** The configuration fields this file reads: [s.c] and [s.lc]. *)
Record Config : Type := {
  Instance : string;
  LMDBLogStatsInterval : Z;
  LMDBScrapeSmaps : bool
}.

Record LMDBConfig : Type := {
  Path : string;
  Options : string;
  DupSortHack : bool
}.

Record Syncer : Type := {
  c : Config;
  lc : LMDBConfig;
  generation : Z
}.

(** The loop of [readDBI] over [items].  [prev] is [None] while the Go
    variable is nil, that is before the first entry: the test [prev != nil]
    is the match on [prev], and [prev = item.Key] makes it [Some]. *)
Fixpoint readLoop (dbiName : string) (rawValues isDupSort : bool)
    (items : list lmdbenv.KV) (prev : option bytes) (dbiMsg : snapshot.DBI)
    : result snapshot.DBI :=
  match items with
  | [] => ret dbiMsg
  | item :: items' =>
      let dup :=
        match prev with
        | Some p => negb isDupSort && bytes_Equal p (lmdbenv.Key item)
        | None => false
        end in
      if dup then
        raise (Errorf
          "duplicate key detected in DBI %q without dupsort_hack, refusing to continue"
          [dbiName])
      else
        let prev := Some (lmdbenv.Key item) in
        let val := lmdbenv.Val item in
        '(ts, val) <-
          (if negb rawValues then
             if (List.length val <? HeaderSize)%nat then
               raise (ErrNoTimestamp dbiName (lmdbenv.Key item))
             else
               ret (binary.BigEndian_Uint64 (firstn HeaderSize val),
                    skipn HeaderSize val)
           else ret (0, val)) ;;
        readLoop dbiName rawValues isDupSort items' prev
          {| snapshot.Name := snapshot.Name dbiMsg;
             snapshot.Entries :=
               snapshot.Entries dbiMsg ++
               [ {| snapshot.Key := lmdbenv.Key item;
                    snapshot.Value := val;
                    snapshot.TimestampNano := ts |} ];
             snapshot.Flags := snapshot.Flags dbiMsg |}
  end.

(** [readDBI] reads a table into a snapshot table.  The timestamp of each
    value is split out to [TimestampNano], unless [rawValues] is set.  (The
    two debug log lines and the capacity hint [stat.Entries] do not reach the
    result.) *)
Definition readDBI (s : Syncer) (txn : Txn) (dbiName : string)
    (rawValues : bool) : result snapshot.DBI :=
  dbi <- OpenDBI txn dbiName 0 ;;
  stat <- Stat txn dbi ;;
  items <- ReadDBI txn dbi ;;
  dbiFlags <- Flags txn dbi ;;
  let isDupSort := Z.land dbiFlags lmdb.DupSort >? 0 in
  if isDupSort && negb (DupSortHack (lc s)) then
    raise (Errorf "dupsort db %s found and dupsort_hack disabled" [dbiName])
  else
    readLoop dbiName rawValues isDupSort items None
      {| snapshot.Name := dbiName;
         snapshot.Entries := [];
         snapshot.Flags := dbiFlags |}.

(** ** Strings as Go reads them: UTF-8 *)

Definition rune := Z.

(** [s[i]] as a number. *)
Definition code (ch : ascii) : Z := Z.of_N (N_of_ascii ch).

Module utf8.

Definition RuneError : rune := 0xFFFD.
Definition RuneSelf : Z := 0x80.

(** The table [first]: what the first byte of a sequence announces.
    [0xF0] is ASCII, [0xF1] is invalid; otherwise the low three bits give
    the size and the high four the index into [acceptRanges]. *)
Definition first (s0 : Z) : Z :=
  if s0 <? 0x80 then 0xF0
  else if s0 <? 0xC2 then 0xF1
  else if s0 <? 0xE0 then 0x02
  else if s0 =? 0xE0 then 0x13
  else if s0 <? 0xED then 0x03
  else if s0 =? 0xED then 0x23
  else if s0 <? 0xF0 then 0x03
  else if s0 =? 0xF0 then 0x34
  else if s0 <? 0xF4 then 0x04
  else if s0 =? 0xF4 then 0x44
  else 0xF1.

(** The table [acceptRanges]: bounds of the second byte. *)
Definition acceptRanges (i : Z) : Z * Z :=
  if i =? 1 then (0xA0, 0xBF)
  else if i =? 2 then (0x80, 0x9F)
  else if i =? 3 then (0x90, 0xBF)
  else if i =? 4 then (0x80, 0x8F)
  else (0x80, 0xBF).

(** Whether [b] is not a continuation byte ([b < locb || hicb < b]). *)
Definition notcont (b : Z) : bool := (b <? 0x80) || (0xBF <? b).

(** [utf8.DecodeRuneInString]: the first rune of [s] and its width in
    bytes; an invalid encoding is [RuneError] of width 1. *)
Definition DecodeRuneInString (s : string) : rune * nat :=
  match s with
  | EmptyString => (RuneError, 0%nat)
  | String c0 t0 =>
      let s0 := code c0 in
      let x := first s0 in
      if 0xF0 <=? x then
        (if x =? 0xF1 then RuneError else s0, 1%nat)
      else
        let sz := Z.land x 7 in
        let '(lo, hi) := acceptRanges (Z.shiftr x 4) in
        if Z.of_nat (String.length s) <? sz then (RuneError, 1%nat) else
        match t0 with
        | EmptyString => (RuneError, 1%nat)
        | String c1 t1 =>
            let s1 := code c1 in
            if (s1 <? lo) || (hi <? s1) then (RuneError, 1%nat) else
            if sz <=? 2 then
              (Z.lor (Z.shiftl (Z.land s0 0x1F) 6) (Z.land s1 0x3F), 2%nat)
            else
            match t1 with
            | EmptyString => (RuneError, 1%nat)
            | String c2 t2 =>
                let s2 := code c2 in
                if notcont s2 then (RuneError, 1%nat) else
                if sz <=? 3 then
                  (Z.lor (Z.lor (Z.shiftl (Z.land s0 0x0F) 12)
                                (Z.shiftl (Z.land s1 0x3F) 6))
                         (Z.land s2 0x3F), 3%nat)
                else
                match t2 with
                | EmptyString => (RuneError, 1%nat)
                | String c3 _ =>
                    let s3 := code c3 in
                    if notcont s3 then (RuneError, 1%nat) else
                    (Z.lor (Z.lor (Z.lor (Z.shiftl (Z.land s0 0x07) 18)
                                         (Z.shiftl (Z.land s1 0x3F) 12))
                                  (Z.shiftl (Z.land s2 0x3F) 6))
                           (Z.land s3 0x3F), 4%nat)
                end
            end
        end
  end.

End utf8.

(** ** Regular expressions, as far as [reUnsafe] needs them *)

Module regexp.

(** A compiled expression that is one character class: [[...]] or
    [[^...]] over ranges of runes. *)
Record Regexp : Type := {
  negated : bool;
  ranges : list (ascii * ascii)
}.

Definition inRange (r : rune) (p : ascii * ascii) : bool :=
  (code (fst p) <=? r) && (r <=? code (snd p)).

(** Whether the class matches the rune [r]. *)
Definition matchRune (re : Regexp) (r : rune) : bool :=
  xorb (negated re) (existsb (inRange r) (ranges re)).

(** The step of the matcher's input: a byte below [RuneSelf] is its own
    rune, anything else is decoded. *)
Definition step (s : string) : rune * nat :=
  match s with
  | EmptyString => (-1, 0%nat)
  | String c0 _ =>
      if code c0 <? utf8.RuneSelf then (code c0, 1%nat)
      else utf8.DecodeRuneInString s
  end.

(** The runes of [src] in order, each with the bytes that encode it;
    [skip] counts the bytes still belonging to the rune before. *)
Fixpoint runesFrom (skip : nat) (src : string) : list (rune * string) :=
  match src with
  | EmptyString => []
  | String _ rest =>
      match skip with
      | S k => runesFrom k rest
      | O =>
          let '(r, w) := step src in
          (r, substring 0 w src) :: runesFrom (w - 1) rest
      end
  end.

Definition runes (src : string) : list (rune * string) := runesFrom 0 src.

(** [re.ReplaceAllString(src, repl)] for a character class [re] and a
    replacement without [$]: each rune the class matches is a match of its
    own and becomes [repl]; the text between matches is copied. *)
Definition ReplaceAllString (re : Regexp) (src repl : string) : string :=
  String.concat ""
    (map (fun p => if matchRune re (fst p) then repl else snd p)
         (runes src)).

End regexp.

(** [reUnsafe = regexp.MustCompile("[^a-zA-Z0-9-]")] *)
Definition reUnsafe : regexp.Regexp :=
  {| regexp.negated := true;
     regexp.ranges :=
       [ ("a", "z"); ("A", "Z"); ("0", "9"); ("-", "-") ]%char |}.

(** [instanceID] returns a safe instance name.  [hostname] is the package
    variable that [init] fills from [os.Hostname], left empty on error. *)
Definition instanceID (hostname : string) (s : Syncer) : string :=
  let n := Instance (c s) in
  let n := if String.eqb n "" then hostname else n in
  let n := regexp.ReplaceAllString reUnsafe n "-" in
  n.

(** [init] sets the package variable [hostname] from [os.Hostname()], whose
    result is [h]; on an error the variable keeps its zero value. *)
Definition init (h : result string) : string :=
  match h with
  | inl _ => ""
  | inr name => name
  end.

(** ** fmt, as far as [generationID] needs it *)

Module fmt.

(** [ldigits[d]], the lower-case digit of [d]. *)
Definition ldigits (d : Z) : ascii :=
  match String.get (Z.to_nat d) "0123456789abcdef" with
  | Some ch => ch
  | None => "0"%char
  end.

(** The loop of [fmtInteger] in base 16, which fills the buffer from its
    end: while [u >= 16] it writes the digit of [u & 0xF] and shifts [u],
    then it writes the digit of what is left.  A [uint64] takes at most
    fifteen turns, the bound given as [turns]. *)
Fixpoint fmtInteger16 (turns : nat) (u : Z) (buf : string) : string :=
  match turns with
  | O => String (ldigits u) buf
  | S turns' =>
      if 16 <=? u then
        fmtInteger16 turns' (Z.shiftr u 4) (String (ldigits (Z.land u 0xF)) buf)
      else String (ldigits u) buf
  end.

(** The leading zeros of [%0<prec>x]: zeros are written in front while the
    digits are fewer than [prec]. *)
Fixpoint zeros (n : nat) (buf : string) : string :=
  match n with
  | O => buf
  | S n' => String "0" (zeros n' buf)
  end.

(** [Sprintf("%016x", u)] for a [uint64]. *)
Definition Sprintf_016x (u : Z) : string :=
  let buf := fmtInteger16 15 u "" in
  zeros (16 - String.length buf) buf.

End fmt.

(** [generationID] formats the generation of the syncer:
    [fmt.Sprintf("G-%016x", s.generation)]. *)
Definition generationID (s : Syncer) : string :=
  ("G-" ++ fmt.Sprintf_016x (generation s))%string.

(** ** Effects: the log, the engine and goroutines

    [openEnv], [closeEnv] and [startStatsLogger] act on the world: they write
    to the logger [s.l], call the engine and start a goroutine.  Each is a
    function from the trace of events so far to its result and the extended
    trace. *)

Inductive level : Type := DebugLevel | InfoLevel | WarnLevel.

(** The value of a log field. *)
Inductive fieldValue : Type :=
  | FString (v : string)
  | FNumber (v : Z)
  | FByteSize (v : Z)
  | FError (e : error).

(** What a goroutine does, seen from outside. *)
Inductive bgEvent : Type :=
  (** [stats.Log(env, nil, scrapeSmaps, s.l)], one sampling call *)
  | StatsLog (env : lmdb.Env) (scrapeSmaps : bool)
  (** the deferred [cancel()] and [logStatsTicker.Stop()] at return *)
  | Cancel
  | TickerStop.

(** A [context.Context], by its identity.  That it is done shows as the
    outcome [CtxDone] of a [select] on the scope derived from it. *)
Definition Context : Type := Z.

(** Which case a [select] of the stats loop takes. *)
Inductive selected : Type :=
  | CtxDone
  | TickerC.

Inductive event : Type :=
  (** a line written through [s.l] *)
  | Log (lvl : level) (fields : list (string * fieldValue)) (msg : string)
  (** [lmdbenv.NewWithOptions(path, options)] and what it returned *)
  | CallNewWithOptions (path options : string) (r : result lmdb.Env)
  (** [env.Info()] and what it returned *)
  | CallInfo (env : lmdb.Env) (r : result lmdb.EnvInfo)
  (** [env.Close()] and what it returned *)
  | CallClose (env : lmdb.Env) (r : option error)
  (** [go func() {...}()]: a goroutine under the context [ctx] with a ticker
      of the given interval, as the events it produces for each sequence of
      [select] outcomes *)
  | Go (ctx : Context) (interval : Z)
       (body : list selected -> list bgEvent).

Definition IO (A : Type) : Type := list event -> A * list event.

Definition pure {A} (a : A) : IO A := fun t => (a, t).
Definition seq {A B} (m : IO A) (k : A -> IO B) : IO B :=
  fun t => let '(a, t') := m t in k a t'.
Definition emit (e : event) : IO unit := fun t => (tt, t ++ [e]).

Notation "x <~ m ;; k" := (seq m (fun x => k))
  (at level 61, m at next level, right associativity).
Notation "m ;;; k" := (seq m (fun _ => k))
  (at level 61, right associativity).

(** The engine behind the handle: what each call returns. *)
Record Engine : Type := {
  NewWithOptions : string -> string -> result lmdb.Env;
  Info : lmdb.Env -> result lmdb.EnvInfo;
  Close : lmdb.Env -> option error
}.

Definition callNewWithOptions (E : Engine) (path options : string)
    : IO (result lmdb.Env) :=
  let r := NewWithOptions E path options in
  emit (CallNewWithOptions path options r) ;;; pure r.

Definition callInfo (E : Engine) (env : lmdb.Env) : IO (result lmdb.EnvInfo) :=
  let r := Info E env in
  emit (CallInfo env r) ;;; pure r.

Definition callClose (E : Engine) (env : lmdb.Env) : IO (option error) :=
  let r := Close E env in
  emit (CallClose env r) ;;; pure r.

(** [openEnv] opens the LMDB env with the right options. *)
Definition openEnv (E : Engine) (s : Syncer) : IO (result lmdb.Env) :=
  emit (Log InfoLevel [("lmdbpath", FString (Path (lc s)))] "Opening LMDB") ;;;
  r <~ callNewWithOptions E (Path (lc s)) (Options (lc s)) ;;
  match r with
  | inl err => pure (inl err)
  | inr env =>
      r <~ callInfo E env ;;
      match r with
      | inl err => pure (inl err)
      | inr info =>
          emit (Log InfoLevel
                  [ ("MapSize", FByteSize (lmdb.MapSize info));
                    ("LastTxnID", FNumber (lmdb.LastTxnID info)) ]
                  "Env info") ;;;
          pure (inr env)
      end
  end.

(** [closeEnv] closes the LMDB env, logging any unexpected errors for easy
    defer. *)
Definition closeEnv (E : Engine) (s : Syncer) (env : lmdb.Env) : IO unit :=
  r <~ callClose E env ;;
  match r with
  | Some err =>
      emit (Log WarnLevel [("error", FError err)] "Env close returned error")
  | None => pure tt
  end.


(** The loop of the goroutine of [startStatsLogger]: at each [select], either
    the context is done and the function returns, running its deferred calls,
    or the ticker fired and the stats are logged. *)
Fixpoint statsLoop (s : Syncer) (env : lmdb.Env) (sel : list selected)
    : list bgEvent :=
  match sel with
  | [] => []
  | CtxDone :: _ => [Cancel; TickerStop]
  | TickerC :: sel' =>
      StatsLog env (LMDBScrapeSmaps (c s)) :: statsLoop s env sel'
  end.

(** [startStatsLogger] logs the LMDB stats every configured interval. *)
Definition startStatsLogger (s : Syncer) (ctx : Context) (env : lmdb.Env)
    : IO unit :=
  let interval := LMDBLogStatsInterval (c s) in
  if interval <=? 0 then
    emit (Log InfoLevel [] "LMDB stats logging disabled")
  else
    emit (Log InfoLevel [("interval", FNumber interval)]
            "Enabled LMDB stats logging") ;;;
    emit (Go ctx interval (statsLoop s env)).

(** ** Reading a trace *)

(** The goroutines a trace has started. *)
Fixpoint goroutines (t : list event) : list (list selected -> list bgEvent) :=
  match t with
  | [] => []
  | Go _ _ body :: t' => body :: goroutines t'
  | _ :: t' => goroutines t'
  end.

Definition isStatsLog (e : bgEvent) : bool :=
  match e with
  | StatsLog _ _ => true
  | _ => false
  end.

(** The sampling calls made in the background of a trace, when every
    goroutine it started sees the [select] outcomes [sel]. *)
Definition samplingCalls (t : list event) (sel : list selected)
    : list bgEvent :=
  flat_map (fun body => filter isStatsLog (body sel)) (goroutines t).

(** How often [env.Close()] was called on [env] in a trace. *)
Fixpoint closeCount (env : lmdb.Env) (t : list event) : nat :=
  match t with
  | [] => 0%nat
  | CallClose env' _ :: t' =>
      Nat.add (if env' =? env then 1%nat else 0%nat) (closeCount env t')
  | _ :: t' => closeCount env t'
  end.

(** Whether a trace records a successful open that returned [env]. *)
Fixpoint opened (env : lmdb.Env) (t : list event) : bool :=
  match t with
  | [] => false
  | CallNewWithOptions _ _ (inr env') :: t' => (env' =? env) || opened env t'
  | _ :: t' => opened env t'
  end.

(** ** Vocabulary of the statements *)

(** Whether the flags of a table declare several values per key. *)
Definition isDupSort (dbiFlags : Z) : bool :=
  Z.land dbiFlags lmdb.DupSort >? 0.

(** The two errors that [readDBI] makes with [fmt.Errorf]. *)
Definition errDupSortUnsupported (dbiName : string) : error :=
  Errorf "dupsort db %s found and dupsort_hack disabled" [dbiName].

Definition errDuplicateKey (dbiName : string) : error :=
  Errorf
    "duplicate key detected in DBI %q without dupsort_hack, refusing to continue"
    [dbiName].

(** The snapshot entry of a stored pair whose value carries a header (or of
    any pair in raw mode). *)
Definition kvOf (rawValues : bool) (item : lmdbenv.KV) : snapshot.KV :=
  if rawValues then
    {| snapshot.Key := lmdbenv.Key item;
       snapshot.Value := lmdbenv.Val item;
       snapshot.TimestampNano := 0 |}
  else
    {| snapshot.Key := lmdbenv.Key item;
       snapshot.Value := skipn HeaderSize (lmdbenv.Val item);
       snapshot.TimestampNano :=
         binary.BigEndian_Uint64 (firstn HeaderSize (lmdbenv.Val item)) |}.

(** The value is long enough to hold the timestamp header. *)
Definition hasHeader (item : lmdbenv.KV) : Prop :=
  (HeaderSize <= List.length (lmdbenv.Val item))%nat.

(** No entry has the key of the entry just before it. *)
Definition distinctNeighbours (items : list lmdbenv.KV) : Prop :=
  forall i a b,
    nth_error items i = Some a -> nth_error items (S i) = Some b ->
    lmdbenv.Key a <> lmdbenv.Key b.

(** The same, entry by entry, starting from the value of [prev]. *)
Fixpoint chain (prev : option bytes) (items : list lmdbenv.KV) : Prop :=
  match items with
  | [] => True
  | item :: items' =>
      prev <> Some (lmdbenv.Key item) /\ chain (Some (lmdbenv.Key item)) items'
  end.

(** The value of [prev] after the loop has gone through [items]. *)
Definition lastKey (prev : option bytes) (items : list lmdbenv.KV)
    : option bytes :=
  fold_left (fun _ item => Some (lmdbenv.Key item)) items prev.

(** The loop reaches an entry with the key of the entry before it: entry
    [i+1] repeats the key of entry [i], and outside raw mode every value up
    to entry [i] holds a header. *)
Definition repeatedKeyReached (rawValues : bool) (items : list lmdbenv.KV)
    : Prop :=
  exists i a b,
    nth_error items i = Some a /\ nth_error items (S i) = Some b /\
    lmdbenv.Key a = lmdbenv.Key b /\
    (rawValues = false ->
     forall j item, (j <= i)%nat -> nth_error items j = Some item ->
                    hasHeader item).

(** The same, entry by entry, starting from the value of [prev]. *)
Fixpoint dupReached (rawValues : bool) (prev : option bytes)
    (items : list lmdbenv.KV) : Prop :=
  match items with
  | [] => False
  | item :: items' =>
      prev = Some (lmdbenv.Key item) \/
      ((rawValues = false -> hasHeader item) /\
       dupReached rawValues (Some (lmdbenv.Key item)) items')
  end.

(** Whether a rune is one of [a-z], [A-Z], [0-9] or [-]. *)
Definition safeRune (r : rune) : bool :=
  ((97 <=? r) && (r <=? 122)) || ((65 <=? r) && (r <=? 90))
  || ((48 <=? r) && (r <=? 57)) || (r =? 45).

Definition safeChar (ch : ascii) : bool := safeRune (code ch).

(** What sanitizing does to one character of an ASCII string. *)
Definition sanitizeChar (ch : ascii) : ascii :=
  if safeChar ch then ch else "-"%char.

Fixpoint mapChars (f : ascii -> ascii) (src : string) : string :=
  match src with
  | EmptyString => EmptyString
  | String ch rest => String (f ch) (mapChars f rest)
  end.

Fixpoint forallChars (P : ascii -> bool) (src : string) : bool :=
  match src with
  | EmptyString => true
  | String ch rest => P ch && forallChars P rest
  end.

Definition isASCII (src : string) : bool :=
  forallChars (fun ch => code ch <? utf8.RuneSelf) src.

(** The replacement of [reUnsafe] with ["-"], rune by rune. *)
Definition replaceRune (p : rune * string) : string :=
  if regexp.matchRune reUnsafe (fst p) then "-" else snd p.

(** The value of a lower-case hexadecimal digit. *)
Definition hexValue (ch : ascii) : option Z :=
  let x := code ch in
  if (48 <=? x) && (x <=? 57) then Some (x - 48)
  else if (97 <=? x) && (x <=? 102) then Some (x - 87)
  else None.

(** Reading a lower-case hexadecimal numeral, most significant digit
    first, onto [acc]. *)
Fixpoint parseHexFrom (acc : Z) (src : string) : option Z :=
  match src with
  | EmptyString => Some acc
  | String ch rest =>
      match hexValue ch with
      | Some d => parseHexFrom (acc * 16 + d) rest
      | None => None
      end
  end.

Definition parseHex (src : string) : option Z := parseHexFrom 0 src.

(** The string that [instanceID] sanitizes. *)
Definition chosenName (hostname : string) (s : Syncer) : string :=
  if String.eqb (Instance (c s)) "" then hostname else Instance (c s).

(** A syncer with the given generation. *)
Definition withGeneration (g : Z) : Syncer :=
  {| c := {| Instance := ""; LMDBLogStatsInterval := 0;
             LMDBScrapeSmaps := false |};
     lc := {| Path := ""; Options := ""; DupSortHack := false |};
     generation := g |}.

(** ** Test fixtures *)

(** A transaction over an engine with one table, [name], of handle 1. *)
Definition tableTxn (name : string) (dbiFlags : Z)
    (items : list lmdbenv.KV) : Txn :=
  {| OpenDBI := fun n _ =>
       if String.eqb n name then ret 1 else raise (EngineError "MDB_NOTFOUND");
     Stat := fun _ => ret {| lmdb.Entries := Z.of_nat (List.length items) |};
     Flags := fun _ => ret dbiFlags;
     ReadDBI := fun _ => ret items |}.

(** A syncer with the given instance name, stats interval and dupsort
    switch. *)
Definition testSyncer (name : string) (interval : Z) (hack : bool) : Syncer :=
  {| c := {| Instance := name; LMDBLogStatsInterval := interval;
             LMDBScrapeSmaps := false |};
     lc := {| Path := "/var/lib/db"; Options := ""; DupSortHack := hack |};
     generation := 0 |}.

(** An engine that opens handle 7; [Info] and [Close] answer as given. *)
Definition testEngine (info : result lmdb.EnvInfo) (close : option error)
    : Engine :=
  {| NewWithOptions := fun _ _ => ret 7;
     Info := fun _ => info;
     Close := fun _ => close |}.

(** A stored pair whose value is [bigEndian64(T) || payload]. *)
Definition stamped (key : bytes) (T : Z) (payload : bytes) : lmdbenv.KV :=
  {| lmdbenv.Key := key;
     lmdbenv.Val := binary.BigEndian_PutUint64 T ++ payload |}.

(** Three tables: keys ["b"], ["a"] out of order; key ["k"] twice; and a
    second value of three bytes only. *)
Definition tableBA : list lmdbenv.KV :=
  [ stamped [x62] 1700000000000000000 [x68; x69]; stamped [x61] 5 [] ].

Definition tableKK : list lmdbenv.KV :=
  [ stamped [x6b] 1 [x31]; stamped [x6b] 2 [x32] ].

Definition tableShort : list lmdbenv.KV :=
  [ stamped [x61] 1 [];
    {| lmdbenv.Key := [x62]; lmdbenv.Val := [x01; x02; x03] |};
    stamped [x63] 3 [] ].

(** * Properties *)

(** ** Bytes and the big-endian header *)

Lemma bytes_Equal_eq (a b : bytes) : bytes_Equal a b = true <-> a = b.
Proof.
  revert b; induction a as [|x a IH]; intros [|y b]; simpl;
    try (split; [discriminate | discriminate]); try tauto.
  rewrite andb_true_iff, IH. split.
  - intros [Hxy ->]. now rewrite (Byte.byte_dec_bl _ _ Hxy).
  - intros [= -> ->]. split; [now apply Byte.byte_dec_lb | reflexivity].
Qed.

Lemma bytes_Equal_refl (a : bytes) : bytes_Equal a a = true.
Proof. now apply bytes_Equal_eq. Qed.

Lemma bytes_Equal_neq (a b : bytes) : bytes_Equal a b = false <-> a <> b.
Proof.
  rewrite <- bytes_Equal_eq. destruct (bytes_Equal a b); split; congruence.
Qed.

Lemma u64_byte_of_Z (v : Z) : u64 (byte_of_Z v) = v mod 2 ^ 8.
Proof.
  unfold u64, byte_of_Z.
  assert (Hr : 0 <= v mod 2 ^ 8 < 2 ^ 8) by (apply Z.mod_pos_bound; lia).
  destruct (Byte.of_N (Z.to_N (v mod 2 ^ 8))) as [b|] eqn:Hb.
  - apply Byte.to_of_N in Hb. rewrite Hb. lia.
  - apply Byte.of_N_None_iff in Hb. lia.
Qed.

Lemma u64_range (b : byte) : 0 <= u64 b < 2 ^ 8.
Proof.
  unfold u64. pose proof (Byte.to_N_bounded b). lia.
Qed.

(** Settles every comparison of the goal that [lia] decides. *)
Ltac decide_cmp :=
  repeat match goal with
         | |- context [?a <=? ?b] =>
             first [ replace (a <=? b) with true
                       by (symmetry; apply Z.leb_le; lia)
                   | replace (a <=? b) with false
                       by (symmetry; apply Z.leb_gt; lia) ]
         | |- context [?a <? ?b] =>
             first [ replace (a <? b) with true
                       by (symmetry; apply Z.ltb_lt; lia)
                   | replace (a <? b) with false
                       by (symmetry; apply Z.ltb_ge; lia) ]
         end.

(** One byte of [v], put back in its place, holds bits [k .. k+7] of [v]. *)
Lemma testbit_byte_at (v k n : Z) :
  0 <= k -> 0 <= n ->
  Z.testbit (Z.shiftl (u64 (byte_of_Z (Z.shiftr v k))) k) n
  = (k <=? n) && (n <? k + 8) && Z.testbit v n.
Proof.
  intros Hk Hn. rewrite u64_byte_of_Z, Z.shiftl_spec by lia.
  destruct (Z.leb_spec k n) as [Hkn|Hkn]; cbn [andb].
  - rewrite Z.testbit_mod_pow2 by lia.
    rewrite Z.shiftr_spec by lia.
    replace (n - k + k) with n by lia.
    destruct (Z.ltb_spec (n - k) 8), (Z.ltb_spec n (k + 8)); try lia; reflexivity.
  - apply Z.testbit_neg_r. lia.
Qed.

Lemma BigEndian_Uint64_PutUint64 (v : Z) (rest : bytes) :
  0 <= v < 2 ^ 64 ->
  binary.BigEndian_Uint64 (binary.BigEndian_PutUint64 v ++ rest) = v.
Proof.
  intros Hv. unfold binary.BigEndian_PutUint64, binary.BigEndian_Uint64.
  cbn [app].
  apply Z.bits_inj'. intros n Hn.
  replace (u64 (byte_of_Z v))
    with (Z.shiftl (u64 (byte_of_Z (Z.shiftr v 0))) 0)
    by (now rewrite Z.shiftr_0_r, Z.shiftl_0_r).
  rewrite !Z.lor_spec, !testbit_byte_at by lia.
  destruct (Z.ltb_spec n 64) as [Hlt|Hge].
  - destruct (Z.testbit v n); [|now rewrite !andb_false_r].
    rewrite !andb_true_r.
    assert (Hcase : n < 8 \/ 8 <= n < 16 \/ 16 <= n < 24 \/ 24 <= n < 32 \/
                    32 <= n < 40 \/ 40 <= n < 48 \/ 48 <= n < 56 \/ 56 <= n)
      by lia.
    repeat destruct Hcase as [Hcase|Hcase]; decide_cmp; reflexivity.
  - assert (Hhi : Z.testbit v n = false).
    { rewrite <- (Z.mod_small v (2 ^ 64)) by lia.
      rewrite Z.testbit_mod_pow2 by lia.
      destruct (Z.ltb_spec n 64); [lia | reflexivity]. }
    rewrite Hhi. now rewrite !andb_false_r.
Qed.

Lemma PutUint64_length (v : Z) :
  List.length (binary.BigEndian_PutUint64 v) = HeaderSize.
Proof. reflexivity. Qed.

(** ** The loop of [readDBI] *)

Section Loop.

Variable dbiName : string.

Lemma dup_check_false (dup : bool) (prev : option bytes) (key : bytes) :
  match prev with
  | Some p => negb dup && bytes_Equal p key
  | None => false
  end = false <->
  (dup = false -> prev <> Some key).
Proof.
  destruct prev as [p|]; [|split; [discriminate|reflexivity]].
  destruct dup; cbn [negb andb].
  - split; [discriminate|reflexivity].
  - rewrite bytes_Equal_neq. split.
    + intros Hne _ [= ->]. now apply Hne.
    + intros Hne ->. now apply Hne.
Qed.

Lemma readLoop_inr (rawValues dup : bool) (items : list lmdbenv.KV) :
  forall prev msg msg',
    readLoop dbiName rawValues dup items prev msg = inr msg' ->
    msg' = {| snapshot.Name := snapshot.Name msg;
              snapshot.Entries :=
                snapshot.Entries msg ++ map (kvOf rawValues) items;
              snapshot.Flags := snapshot.Flags msg |}
    /\ (rawValues = false -> Forall hasHeader items)
    /\ (dup = false -> chain prev items).
Proof.
  induction items as [|item items IH]; intros prev msg msg'; cbn [readLoop].
  - intros [= <-]. rewrite app_nil_r. destruct msg.
    split; [reflexivity | split; [intros _; constructor | intros _; exact I]].
  - destruct (match prev with
              | Some p => negb dup && bytes_Equal p (lmdbenv.Key item)
              | None => false
              end) eqn:Hd; [discriminate|].
    pose proof (proj1 (dup_check_false dup prev (lmdbenv.Key item)) Hd)
      as Hne.
    destruct rawValues; cbn [negb].
    + cbn [bind ret]. intros H. apply IH in H.
      cbn [snapshot.Name snapshot.Entries snapshot.Flags] in H.
      destruct H as (-> & _ & Hc). rewrite <- app_assoc.
      split; [reflexivity | split; [discriminate|]].
      intros Hdup. cbn [chain]. split; [now apply Hne | now apply Hc].
    + destruct (List.length (lmdbenv.Val item) <? HeaderSize)%nat eqn:Hl;
        [discriminate|].
      apply Nat.ltb_ge in Hl.
      cbn [bind ret]. intros H. apply IH in H.
      cbn [snapshot.Name snapshot.Entries snapshot.Flags] in H.
      destruct H as (-> & Hh & Hc). rewrite <- app_assoc.
      split; [reflexivity | split].
      * intros _. constructor; [exact Hl | now apply Hh].
      * intros Hdup. cbn [chain]. split; [now apply Hne | now apply Hc].
Qed.

Lemma readLoop_ok (rawValues dup : bool) (items : list lmdbenv.KV) :
  forall prev msg,
    (rawValues = false -> Forall hasHeader items) ->
    (dup = false -> chain prev items) ->
    readLoop dbiName rawValues dup items prev msg
    = inr {| snapshot.Name := snapshot.Name msg;
             snapshot.Entries :=
               snapshot.Entries msg ++ map (kvOf rawValues) items;
             snapshot.Flags := snapshot.Flags msg |}.
Proof.
  induction items as [|item items IH]; intros prev msg Hh Hc; cbn [readLoop].
  - rewrite app_nil_r. now destruct msg.
  - assert (Hd : match prev with
                 | Some p => negb dup && bytes_Equal p (lmdbenv.Key item)
                 | None => false
                 end = false).
    { apply dup_check_false. intros Hdup. now destruct (Hc Hdup). }
    rewrite Hd.
    assert (Hv : (if negb rawValues
                  then if (List.length (lmdbenv.Val item) <? HeaderSize)%nat
                       then raise (ErrNoTimestamp dbiName (lmdbenv.Key item))
                       else ret (binary.BigEndian_Uint64
                                   (firstn HeaderSize (lmdbenv.Val item)),
                                 skipn HeaderSize (lmdbenv.Val item))
                  else ret (0, lmdbenv.Val item))
                 = ret (snapshot.TimestampNano (kvOf rawValues item),
                        snapshot.Value (kvOf rawValues item))).
    { destruct rawValues; [reflexivity|]. cbn [negb kvOf].
      specialize (Hh eq_refl). inversion Hh as [|? ? Hi _]; subst.
      unfold hasHeader in Hi. apply Nat.ltb_ge in Hi. now rewrite Hi. }
    rewrite Hv. cbn [bind ret]. rewrite IH.
    + cbn [snapshot.Name snapshot.Entries snapshot.Flags].
      rewrite <- app_assoc. cbn [app map]. now destruct rawValues.
    + intros Hr. specialize (Hh Hr). now inversion Hh.
    + intros Hdup. now destruct (Hc Hdup).
Qed.

End Loop.

(** ** Neighbouring keys *)

Lemma distinctNeighbours_cons2 (a b : lmdbenv.KV) (items : list lmdbenv.KV) :
  distinctNeighbours (a :: b :: items) <->
  lmdbenv.Key a <> lmdbenv.Key b /\ distinctNeighbours (b :: items).
Proof.
  unfold distinctNeighbours. split.
  - intros H. split.
    + now apply (H 0%nat).
    + intros i x y Hx Hy. now apply (H (S i)).
  - intros [Hab H] [|i] x y Hx Hy.
    + cbn in Hx, Hy. congruence.
    + now apply (H i).
Qed.

Lemma chain_distinctNeighbours_cons (a : lmdbenv.KV) (items : list lmdbenv.KV) :
  chain (Some (lmdbenv.Key a)) items <-> distinctNeighbours (a :: items).
Proof.
  revert a; induction items as [|b items IH]; intros a.
  - split; [|reflexivity]. intros _ i x y Hx Hy.
    destruct i as [|[|i]]; discriminate.
  - cbn [chain]. rewrite distinctNeighbours_cons2, IH.
    split; intros [H1 H2]; (split; [congruence | exact H2]).
Qed.

Lemma chain_distinctNeighbours (items : list lmdbenv.KV) :
  chain None items <-> distinctNeighbours items.
Proof.
  destruct items as [|a items].
  - split; [|reflexivity]. intros _ i x y Hx Hy.
    destruct i; discriminate.
  - cbn [chain]. rewrite chain_distinctNeighbours_cons.
    split; [now intros [_ H] | intros H; split; [discriminate | exact H]].
Qed.

Lemma chain_app (prev : option bytes) (pre rest : list lmdbenv.KV) :
  chain prev (pre ++ rest) <-> chain prev pre /\ chain (lastKey prev pre) rest.
Proof.
  revert prev; induction pre as [|a pre IH]; intros prev; cbn [app chain].
  - unfold lastKey; cbn. tauto.
  - rewrite IH. unfold lastKey; cbn [fold_left]. tauto.
Qed.

Lemma repeatedKeyReached_cons (rawValues : bool) (a : lmdbenv.KV)
    (items : list lmdbenv.KV) :
  (rawValues = false -> hasHeader a) ->
  dupReached rawValues (Some (lmdbenv.Key a)) items <->
  repeatedKeyReached rawValues (a :: items).
Proof.
  revert a; induction items as [|b items IH]; intros a Ha.
  - cbn [dupReached]. split; [tauto|].
    intros (i & x & y & _ & Hy & _). destruct i; discriminate.
  - cbn [dupReached]. split.
    + intros [Heq | [Hb Hrest]].
      * exists 0%nat, a, b. repeat split; [congruence|].
        intros Hr j item Hj Hitem. assert (j = 0%nat) as -> by lia.
        cbn in Hitem. injection Hitem as <-. now apply Ha.
      * apply IH in Hrest; [|exact Hb].
        destruct Hrest as (i & x & y & Hx & Hy & Hxy & Hok).
        exists (S i), x, y. repeat split; try assumption.
        intros Hr [|j] item Hj Hitem.
        -- cbn in Hitem. injection Hitem as <-. now apply Ha.
        -- apply (Hok Hr j); [lia | exact Hitem].
    + intros (i & x & y & Hx & Hy & Hxy & Hok). destruct i as [|i].
      * left. cbn in Hx, Hy. congruence.
      * right. assert (Hb : rawValues = false -> hasHeader b).
        { intros Hr. apply (Hok Hr 1%nat); [lia | reflexivity]. }
        split; [exact Hb|]. apply IH; [exact Hb|].
        exists i, x, y. repeat split; try assumption.
        intros Hr j item Hj Hitem. apply (Hok Hr (S j)); [lia | exact Hitem].
Qed.

Lemma repeatedKeyReached_None (rawValues : bool) (items : list lmdbenv.KV) :
  dupReached rawValues None items <-> repeatedKeyReached rawValues items.
Proof.
  destruct items as [|a items].
  - cbn [dupReached]. split; [tauto|].
    intros (i & x & y & Hx & _). destruct i; discriminate.
  - cbn [dupReached]. split.
    + intros [Hn | [Ha Hrest]]; [discriminate|].
      now apply repeatedKeyReached_cons.
    + intros H. right.
      assert (Ha : rawValues = false -> hasHeader a).
      { destruct H as (i & x & y & _ & _ & _ & Hok).
        intros Hr. apply (Hok Hr 0%nat); [lia | reflexivity]. }
      split; [exact Ha|]. now apply repeatedKeyReached_cons.
Qed.

Section LoopErrors.

Variable dbiName : string.

Lemma readLoop_app (rawValues dup : bool) (pre rest : list lmdbenv.KV) :
  forall prev msg,
    readLoop dbiName rawValues dup (pre ++ rest) prev msg
    = (msg' <- readLoop dbiName rawValues dup pre prev msg ;;
       readLoop dbiName rawValues dup rest (lastKey prev pre) msg').
Proof.
  induction pre as [|a pre IH]; intros prev msg; cbn [app readLoop].
  - reflexivity.
  - destruct (match prev with
              | Some p => negb dup && bytes_Equal p (lmdbenv.Key a)
              | None => false
              end); [reflexivity|].
    destruct (if negb rawValues
              then if (List.length (lmdbenv.Val a) <? HeaderSize)%nat
                   then raise (ErrNoTimestamp dbiName (lmdbenv.Key a))
                   else ret (binary.BigEndian_Uint64
                               (firstn HeaderSize (lmdbenv.Val a)),
                             skipn HeaderSize (lmdbenv.Val a))
              else ret (0, lmdbenv.Val a)) as [e|[ts val]];
      cbn [bind]; [reflexivity|].
    now rewrite IH.
Qed.

(** The loop stops with the duplicate-key error exactly when it reaches an
    entry that has the key of its predecessor. *)
Lemma readLoop_duplicate (rawValues : bool) (items : list lmdbenv.KV) :
  forall prev msg,
    readLoop dbiName rawValues false items prev msg
    = inl (errDuplicateKey dbiName)
    <-> dupReached rawValues prev items.
Proof.
  induction items as [|a items IH]; intros prev msg;
    cbn [readLoop dupReached].
  - split; [discriminate | tauto].
  - destruct (match prev with
              | Some p => negb false && bytes_Equal p (lmdbenv.Key a)
              | None => false
              end) eqn:Hd.
    + split; [|reflexivity]. intros _. left.
      destruct prev as [p|]; [|discriminate]. cbn [negb andb] in Hd.
      apply bytes_Equal_eq in Hd. now subst.
    + pose proof (proj1 (dup_check_false false prev (lmdbenv.Key a))
                    Hd eq_refl) as Hne.
      destruct rawValues; cbn [negb].
      * cbn [bind ret]. rewrite IH. split.
        -- intros H. right. split; [discriminate | exact H].
        -- intros [H | [_ H]]; [contradiction | exact H].
      * unfold hasHeader.
        destruct (List.length (lmdbenv.Val a) <? HeaderSize)%nat eqn:Hl.
        -- apply Nat.ltb_lt in Hl. cbn [bind raise]. split; [discriminate|].
           intros [H | [H _]]; [contradiction|]. specialize (H eq_refl). lia.
        -- apply Nat.ltb_ge in Hl. cbn [bind ret]. rewrite IH. split.
           ++ intros H. right. split; [intros _; exact Hl | exact H].
           ++ intros [H | [_ H]]; [contradiction | exact H].
Qed.

End LoopErrors.

(** ** The snapshot extractor *)

Section Extractor.

(** A table that the engine opens and reads: [dbi], [stat], [items] and
    [dbiFlags] are what the four calls of [readDBI] return. *)
Variables (s : Syncer) (txn : Txn) (dbiName : string).
Variables (dbi : lmdb.DBI) (stat : lmdb.Stat).
Variables (items : list lmdbenv.KV) (dbiFlags : Z).
Hypothesis Hopen : OpenDBI txn dbiName 0 = inr dbi.
Hypothesis Hstat : Stat txn dbi = inr stat.
Hypothesis Hread : ReadDBI txn dbi = inr items.
Hypothesis Hflags : Flags txn dbi = inr dbiFlags.

Lemma readDBI_setup (rawValues : bool) :
  readDBI s txn dbiName rawValues
  = if isDupSort dbiFlags && negb (DupSortHack (lc s)) then
      inl (errDupSortUnsupported dbiName)
    else
      readLoop dbiName rawValues (isDupSort dbiFlags) items None
        {| snapshot.Name := dbiName;
           snapshot.Entries := [];
           snapshot.Flags := dbiFlags |}.
Proof.
  unfold readDBI. rewrite Hopen. cbn [bind]. rewrite Hstat. cbn [bind].
  rewrite Hread. cbn [bind]. rewrite Hflags. reflexivity.
Qed.

Lemma switch_ok :
  (isDupSort dbiFlags = true -> DupSortHack (lc s) = true) ->
  isDupSort dbiFlags && negb (DupSortHack (lc s)) = false.
Proof.
  destruct (isDupSort dbiFlags); [|reflexivity].
  intros H. now rewrite (H eq_refl).
Qed.

Lemma readDBI_ok (rawValues : bool) :
  (isDupSort dbiFlags = true -> DupSortHack (lc s) = true) ->
  (rawValues = false -> Forall hasHeader items) ->
  (isDupSort dbiFlags = false -> distinctNeighbours items) ->
  readDBI s txn dbiName rawValues
  = inr {| snapshot.Name := dbiName;
           snapshot.Entries := map (kvOf rawValues) items;
           snapshot.Flags := dbiFlags |}.
Proof.
  intros Hsw Hh Hk. rewrite readDBI_setup, (switch_ok Hsw).
  rewrite readLoop_ok; [reflexivity | exact Hh |].
  intros Hd. apply chain_distinctNeighbours. now apply Hk.
Qed.

Lemma readDBI_inr (rawValues : bool) (msg : snapshot.DBI) :
  readDBI s txn dbiName rawValues = inr msg ->
  msg = {| snapshot.Name := dbiName;
           snapshot.Entries := map (kvOf rawValues) items;
           snapshot.Flags := dbiFlags |}
  /\ (rawValues = false -> Forall hasHeader items).
Proof.
  rewrite readDBI_setup.
  destruct (isDupSort dbiFlags && negb (DupSortHack (lc s)));
    [discriminate|].
  intros H. apply readLoop_inr in H. destruct H as (-> & Hh & _).
  split; [reflexivity | exact Hh].
Qed.

Lemma kvOf_exact (item : lmdbenv.KV) :
  List.length (lmdbenv.Val item) = HeaderSize ->
  kvOf false item
  = {| snapshot.Key := lmdbenv.Key item;
       snapshot.Value := [];
       snapshot.TimestampNano :=
         binary.BigEndian_Uint64 (lmdbenv.Val item) |}.
Proof.
  intros Hl. unfold kvOf.
  rewrite <- Hl, firstn_all, skipn_all. reflexivity.
Qed.

(** C2. Round trip of the timestamp header: in a table that [readDBI]
    reads in non-raw mode, the entry stored as [bigEndian64(T) || payload]
    comes out with [TimestampNano = T] and [Value = payload]; an entry of
    exactly eight bytes comes out with an empty value and the timestamp
    that its eight bytes encode. *)
Theorem readDBI_round_trip (i : nat) (k payload : bytes) (T : Z)
    (HT : 0 <= T < 2 ^ 64)
    (Hi : nth_error items i
          = Some {| lmdbenv.Key := k;
                    lmdbenv.Val := binary.BigEndian_PutUint64 T ++ payload |})
    (Hswitch : isDupSort dbiFlags = true -> DupSortHack (lc s) = true)
    (Hvals : Forall hasHeader items)
    (Hkeys : isDupSort dbiFlags = false -> distinctNeighbours items) :
  exists msg,
    readDBI s txn dbiName false = inr msg
    /\ nth_error (snapshot.Entries msg) i
       = Some {| snapshot.Key := k;
                 snapshot.Value := payload;
                 snapshot.TimestampNano := T |}
    /\ (forall j item,
          nth_error items j = Some item ->
          List.length (lmdbenv.Val item) = HeaderSize ->
          nth_error (snapshot.Entries msg) j
          = Some {| snapshot.Key := lmdbenv.Key item;
                    snapshot.Value := [];
                    snapshot.TimestampNano :=
                      binary.BigEndian_Uint64 (lmdbenv.Val item) |}).
Proof.
  eexists. split; [apply readDBI_ok; auto|].
  cbn [snapshot.Entries]. split.
  - rewrite nth_error_map, Hi. cbn [option_map kvOf lmdbenv.Key lmdbenv.Val].
    do 2 f_equal. f_equal.
    change (firstn HeaderSize (binary.BigEndian_PutUint64 T ++ payload))
      with (binary.BigEndian_PutUint64 T ++ []).
    now apply BigEndian_Uint64_PutUint64.
  - intros j item Hj Hl. rewrite nth_error_map, Hj. cbn [option_map].
    now rewrite kvOf_exact.
Qed.

(** C3. A value shorter than the header aborts the read in non-raw mode:
    a table with such an entry yields no snapshot, and when the loop
    reaches the first such entry the error is [ErrNoTimestamp] with the
    table name and the key of that entry; a table whose values all hold
    the header is read, and a value of exactly eight bytes gives an empty
    payload. *)
Theorem readDBI_no_timestamp :
  (forall item,
      In item items -> ~ hasHeader item ->
      forall msg, readDBI s txn dbiName false <> inr msg)
  /\ (forall pre cur post,
        items = pre ++ cur :: post ->
        Forall hasHeader pre -> ~ hasHeader cur ->
        (isDupSort dbiFlags = true -> DupSortHack (lc s) = true) ->
        (isDupSort dbiFlags = false -> distinctNeighbours (pre ++ [cur])) ->
        readDBI s txn dbiName false
        = inl (ErrNoTimestamp dbiName (lmdbenv.Key cur)))
  /\ ((isDupSort dbiFlags = true -> DupSortHack (lc s) = true) ->
      Forall hasHeader items ->
      (isDupSort dbiFlags = false -> distinctNeighbours items) ->
      exists msg,
        readDBI s txn dbiName false = inr msg
        /\ forall j item,
             nth_error items j = Some item ->
             List.length (lmdbenv.Val item) = HeaderSize ->
             nth_error (snapshot.Entries msg) j
             = Some {| snapshot.Key := lmdbenv.Key item;
                       snapshot.Value := [];
                       snapshot.TimestampNano :=
                         binary.BigEndian_Uint64 (lmdbenv.Val item) |}).
Proof.
  split; [|split].
  - intros item Hin Hshort msg Hmsg.
    apply readDBI_inr in Hmsg. destruct Hmsg as [_ Hh].
    specialize (Hh eq_refl). rewrite Forall_forall in Hh.
    apply Hshort. now apply Hh.
  - intros pre cur post Hitems Hpre Hshort Hsw Hk.
    rewrite readDBI_setup, (switch_ok Hsw), Hitems, readLoop_app.
    assert (Hc : isDupSort dbiFlags = false ->
                 chain None pre /\ chain (lastKey None pre) [cur]).
    { intros Hd. apply chain_app, chain_distinctNeighbours. now apply Hk. }
    rewrite readLoop_ok; [|intros _; exact Hpre|intros Hd; now apply Hc].
    cbn [bind readLoop].
    assert (Hd : match lastKey None pre with
                 | Some p => negb (isDupSort dbiFlags)
                             && bytes_Equal p (lmdbenv.Key cur)
                 | None => false
                 end = false).
    { apply dup_check_false. intros Hd.
      destruct (Hc Hd) as [_ [Hne _]]. exact Hne. }
    rewrite Hd. cbn [negb].
    unfold hasHeader in Hshort.
    assert (Hl : (List.length (lmdbenv.Val cur) <? HeaderSize)%nat = true)
      by (apply Nat.ltb_lt; lia).
    rewrite Hl. reflexivity.
  - intros Hsw Hh Hk. eexists. split; [apply readDBI_ok; auto|].
    intros j item Hj Hl. cbn [snapshot.Entries].
    rewrite nth_error_map, Hj. cbn [option_map]. now rewrite kvOf_exact.
Qed.

(** C5. In a table without several values per key, [readDBI] stops with
    the duplicate-key error exactly when the loop reaches an entry whose
    key equals the key just before it; keys in any order with no such
    neighbour are read.  In a table with several values per key and the
    switch on, equal neighbouring keys are no error and every stored pair
    becomes an entry. *)
Theorem readDBI_duplicate_key (rawValues : bool) :
  (isDupSort dbiFlags = false ->
   (readDBI s txn dbiName rawValues = inl (errDuplicateKey dbiName)
    <-> repeatedKeyReached rawValues items))
  /\ (isDupSort dbiFlags = false ->
      (rawValues = false -> Forall hasHeader items) ->
      distinctNeighbours items ->
      readDBI s txn dbiName rawValues
      = inr {| snapshot.Name := dbiName;
               snapshot.Entries := map (kvOf rawValues) items;
               snapshot.Flags := dbiFlags |})
  /\ (isDupSort dbiFlags = true -> DupSortHack (lc s) = true ->
      (rawValues = false -> Forall hasHeader items) ->
      readDBI s txn dbiName rawValues
      = inr {| snapshot.Name := dbiName;
               snapshot.Entries := map (kvOf rawValues) items;
               snapshot.Flags := dbiFlags |}).
Proof.
  split; [|split].
  - intros Hd. rewrite readDBI_setup, Hd. cbn [andb].
    rewrite readLoop_duplicate. apply repeatedKeyReached_None.
  - intros Hd Hh Hk. apply readDBI_ok; auto. congruence.
  - intros Hd Hsw Hh. apply readDBI_ok; auto. congruence.
Qed.

(** C6. A table without several values per key, whose neighbouring keys
    differ and whose values all hold the header, is read in non-raw mode
    into a snapshot with as many entries as the table, their keys in the
    order of the engine's iteration. *)
Theorem readDBI_preserves_order
    (Hsingle : isDupSort dbiFlags = false)
    (Hvals : Forall hasHeader items)
    (Hkeys : distinctNeighbours items) :
  exists msg,
    readDBI s txn dbiName false = inr msg
    /\ List.length (snapshot.Entries msg) = List.length items
    /\ map snapshot.Key (snapshot.Entries msg) = map lmdbenv.Key items
    /\ snapshot.Entries msg = map (kvOf false) items.
Proof.
  eexists. split; [apply readDBI_ok; auto; congruence|].
  cbn [snapshot.Entries]. split; [apply length_map|].
  split; [|reflexivity].
  rewrite map_map. apply map_ext. reflexivity.
Qed.

End Extractor.

(** C4. A table whose flags declare several values per key is refused when
    the switch [DupSortHack] is off: no snapshot is returned, and once the
    engine has listed the table the error is the one that names it. *)
Theorem readDBI_dupsort_unsupported (s : Syncer) (txn : Txn)
    (dbiName : string) (rawValues : bool) (dbi : lmdb.DBI) (dbiFlags : Z)
    (Hopen : OpenDBI txn dbiName 0 = inr dbi)
    (Hflags : Flags txn dbi = inr dbiFlags)
    (Hdup : isDupSort dbiFlags = true)
    (Hswitch : DupSortHack (lc s) = false) :
  (forall msg, readDBI s txn dbiName rawValues <> inr msg)
  /\ (forall stat items,
        Stat txn dbi = inr stat -> ReadDBI txn dbi = inr items ->
        readDBI s txn dbiName rawValues = inl (errDupSortUnsupported dbiName)).
Proof.
  split.
  - intros msg. unfold readDBI. rewrite Hopen. cbn [bind].
    destruct (Stat txn dbi); [discriminate|]. cbn [bind].
    destruct (ReadDBI txn dbi); [discriminate|]. cbn [bind].
    rewrite Hflags. cbn [bind]. fold (isDupSort dbiFlags).
    rewrite Hdup, Hswitch. discriminate.
  - intros stat items Hstat Hread.
    rewrite (readDBI_setup s txn dbiName dbi stat items dbiFlags) by assumption.
    now rewrite Hdup, Hswitch.
Qed.

(** ** Identity naming *)

Lemma lor_lower (a b : Z) : 0 <= a -> 0 <= b -> a <= Z.lor a b.
Proof.
  intros Ha Hb.
  assert (Hl : Z.lor a b = Z.lor a (Z.ldiff b a)).
  { apply Z.bits_inj'. intros n Hn.
    rewrite !Z.lor_spec, Z.ldiff_spec.
    now destruct (Z.testbit a n), (Z.testbit b n). }
  assert (Hz : Z.land a (Z.ldiff b a) = 0).
  { apply Z.bits_inj'. intros n Hn.
    rewrite Z.land_spec, Z.ldiff_spec, Z.bits_0.
    now destruct (Z.testbit a n), (Z.testbit b n). }
  rewrite Hl, <- (Z.lxor_lor _ _ Hz), <- (Z.add_nocarry_lxor _ _ Hz).
  assert (0 <= Z.ldiff b a) by (apply Z.ldiff_nonneg; lia). lia.
Qed.

Lemma code_range (ch : ascii) : 0 <= code ch < 256.
Proof.
  unfold code. pose proof (N_ascii_bounded ch). lia.
Qed.

Lemma safeRune_ascii (r : rune) : safeRune r = true -> 0 <= r < 0x80.
Proof.
  unfold safeRune. rewrite !orb_true_iff, !andb_true_iff, !Z.leb_le, Z.eqb_eq.
  lia.
Qed.

Lemma matchRune_reUnsafe (r : rune) :
  regexp.matchRune reUnsafe r = negb (safeRune r).
Proof.
  unfold regexp.matchRune, reUnsafe, safeRune, regexp.inRange.
  cbn [regexp.negated regexp.ranges existsb fst snd xorb].
  change (code "a") with 97. change (code "z") with 122.
  change (code "A") with 65. change (code "Z") with 90.
  change (code "0") with 48. change (code "9") with 57.
  change (code "-") with 45.
  rewrite orb_false_r.
  replace ((45 <=? r) && (r <=? 45)) with (r =? 45).
  - now rewrite !orb_assoc.
  - destruct (Z.eqb_spec r 45), (Z.leb_spec 45 r), (Z.leb_spec r 45);
      try lia; reflexivity.
Qed.

Lemma lor_bounds (a b : Z) :
  0 <= a -> 0 <= b -> a <= Z.lor a b /\ b <= Z.lor a b.
Proof.
  intros Ha Hb. split; [now apply lor_lower|].
  rewrite Z.lor_comm. now apply lor_lower.
Qed.

(** Takes the decoder apart, one test at a time. *)
Ltac decode_step :=
  match goal with
  | |- context [if ?b then _ else _] => destruct b eqn:?
  | |- context [match ?t with EmptyString => _ | String _ _ => _ end] =>
      destruct t
  end.

(** Bounds every [Z.lor] of the goal from below by its two sides, inner
    ones first, and forgets what it is. *)
Ltac bound_lor :=
  repeat match goal with
         | |- context [Z.lor ?a ?b] =>
             let H := fresh "Hlor" in
             assert (H : a <= Z.lor a b /\ b <= Z.lor a b)
               by (apply lor_bounds; Z.div_mod_to_equations; lia);
             generalize dependent (Z.lor a b); intros
         end.

Ltac masks_to_mod :=
  change 63 with (Z.ones 6) in *; change 31 with (Z.ones 5) in *;
  change 15 with (Z.ones 4) in *; change 7 with (Z.ones 3) in *;
  rewrite ?Z.land_ones, ?Z.shiftl_mul_pow2 in * by lia;
  repeat match goal with
         | |- context [2 ^ Z.pos ?n] =>
             let v := eval vm_compute in (2 ^ Z.pos n) in
             change (2 ^ Z.pos n) with v
         end.


(** What [first] says of a byte that is not ASCII. *)
Lemma first_not_ascii (s0 : Z) :
  0x80 <= s0 < 256 ->
  utf8.first s0 = 0xF1
  \/ (utf8.first s0 = 0x02 /\ 0xC2 <= s0 < 0xE0)
  \/ (utf8.first s0 = 0x13 /\ s0 = 0xE0)
  \/ (utf8.first s0 = 0x03 /\ 0xE1 <= s0 < 0xF0)
  \/ (utf8.first s0 = 0x23 /\ s0 = 0xED)
  \/ (utf8.first s0 = 0x34 /\ s0 = 0xF0)
  \/ (utf8.first s0 = 0x04 /\ 0xF1 <= s0 < 0xF4)
  \/ (utf8.first s0 = 0x44 /\ s0 = 0xF4).
Proof.
  intros Hs. unfold utf8.first.
  repeat match goal with
         | |- context [?a <? ?b] => destruct (Z.ltb_spec a b)
         | |- context [?a =? ?b] => destruct (Z.eqb_spec a b)
         end; try lia; tauto.
Qed.

Ltac eval_first :=
  repeat match goal with
         | |- context [Z.land (Z.pos ?p) 7] =>
             let v := eval vm_compute in (Z.land (Z.pos p) 7) in
             change (Z.land (Z.pos p) 7) with v
         | |- context [utf8.acceptRanges ?i] =>
             let v := eval vm_compute in (utf8.acceptRanges i) in
             change (utf8.acceptRanges i) with v
         end;
  cbv beta iota.

Lemma DecodeRuneInString_not_ascii (c0 : ascii) (t : string) :
  0x80 <= code c0 ->
  0x80 <= fst (utf8.DecodeRuneInString (String c0 t)).
Proof.
  intros H0. pose proof (code_range c0) as R0.
  unfold utf8.DecodeRuneInString, utf8.notcont.
  remember (code c0) as s0 eqn:Hs0.
  destruct (first_not_ascii s0) as [Hx|[Hx|[Hx|[Hx|[Hx|[Hx|[Hx|Hx]]]]]]];
    [lia | rewrite Hx; cbn; unfold utf8.RuneError; lia | ..];
    destruct Hx as [-> Hs]; change (0xF0 <=? _) with false; cbv iota;
    eval_first.
  all: repeat decode_step; cbn [fst]; unfold utf8.RuneError; try lia.
  all: try discriminate.
  all: repeat match goal with
         | H : _ || _ = false |- _ => apply orb_false_elim in H; destruct H
         | H : (_ <? _) = false |- _ => apply Z.ltb_ge in H
         end.
  all: repeat match goal with
         | |- context [code ?ch] =>
             pose proof (code_range ch); generalize dependent (code ch); intros
         end.
  all: masks_to_mod.
  all: bound_lor.
  all: Z.div_mod_to_equations; lia.
Qed.

(** A rune of the safe alphabet is a single byte of the source. *)
Lemma step_safe (c0 : ascii) (t : string) :
  safeRune (fst (regexp.step (String c0 t))) = true ->
  regexp.step (String c0 t) = (code c0, 1%nat).
Proof.
  unfold regexp.step, utf8.RuneSelf.
  destruct (Z.ltb_spec (code c0) 0x80) as [Hlt|Hge]; [reflexivity|].
  intros Hsafe. apply safeRune_ascii in Hsafe.
  pose proof (DecodeRuneInString_not_ascii c0 t Hge). lia.
Qed.

Lemma step_ascii (c0 : ascii) (t : string) :
  code c0 < 0x80 -> regexp.step (String c0 t) = (code c0, 1%nat).
Proof.
  intros Hlt. unfold regexp.step, utf8.RuneSelf.
  destruct (Z.ltb_spec (code c0) 0x80); [reflexivity | lia].
Qed.

Lemma concat_cons (x : string) (xs : list string) :
  String.concat "" (x :: xs) = (x ++ String.concat "" xs)%string.
Proof.
  destruct xs as [|y ys]; cbn [String.concat].
  - induction x as [|ch x IH]; cbn [String.append]; [reflexivity|].
    now rewrite <- IH.
  - reflexivity.
Qed.

Lemma forallChars_append (P : ascii -> bool) (a b : string) :
  forallChars P (a ++ b)%string = forallChars P a && forallChars P b.
Proof.
  induction a as [|ch a IH]; cbn [String.append forallChars].
  - reflexivity.
  - now rewrite IH, andb_assoc.
Qed.

Lemma replaceRune_safe (skip : nat) (src : string) :
  forallChars safeChar
    (String.concat "" (map replaceRune (regexp.runesFrom skip src))) = true.
Proof.
  revert skip; induction src as [|c0 t IH]; intros skip;
    cbn [regexp.runesFrom]; [reflexivity|].
  destruct skip as [|k]; [|apply IH].
  destruct (regexp.step (String c0 t)) as [r w] eqn:Hstep.
  cbn [map]. rewrite concat_cons, forallChars_append, IH, andb_true_r.
  unfold replaceRune. cbn [fst snd]. rewrite matchRune_reUnsafe.
  destruct (safeRune r) eqn:Hr; cbn [negb]; [|reflexivity].
  assert (Hs : safeRune (fst (regexp.step (String c0 t))) = true)
    by now rewrite Hstep.
  apply step_safe in Hs. rewrite Hstep in Hs. injection Hs as -> ->.
  replace (substring 0 1 (String c0 t)) with (String c0 "")
    by (now destruct t).
  cbn [forallChars]. unfold safeChar. now rewrite Hr.
Qed.

Lemma ReplaceAllString_ascii (src : string) :
  isASCII src = true ->
  regexp.ReplaceAllString reUnsafe src "-" = mapChars sanitizeChar src.
Proof.
  unfold regexp.ReplaceAllString, regexp.runes, isASCII.
  fold replaceRune.
  change (fun p : rune * string =>
            if regexp.matchRune reUnsafe (fst p) then "-" else snd p)
    with replaceRune.
  induction src as [|c0 t IH]; [reflexivity|].
  cbn [forallChars]. rewrite andb_true_iff, Z.ltb_lt. intros [Hc Ht].
  cbn [regexp.runesFrom]. rewrite (step_ascii c0 t Hc).
  cbn [Nat.sub map]. rewrite concat_cons, (IH Ht).
  unfold replaceRune at 1. cbn [fst snd substring]. rewrite matchRune_reUnsafe.
  cbn [mapChars]. unfold sanitizeChar, safeChar.
  destruct t; destruct (safeRune (code c0)); reflexivity.
Qed.

Lemma safe_isASCII (src : string) :
  forallChars safeChar src = true -> isASCII src = true.
Proof.
  unfold isASCII. induction src as [|c0 t IH]; [reflexivity|].
  cbn [forallChars]. rewrite !andb_true_iff. intros [Hc Ht].
  split; [|now apply IH].
  apply safeRune_ascii in Hc. apply Z.ltb_lt. unfold utf8.RuneSelf. lia.
Qed.

Lemma mapChars_safe (src : string) :
  forallChars safeChar src = true -> mapChars sanitizeChar src = src.
Proof.
  induction src as [|c0 t IH]; [reflexivity|].
  cbn [forallChars mapChars]. rewrite andb_true_iff. intros [Hc Ht].
  unfold sanitizeChar at 1. now rewrite Hc, IH.
Qed.

(** C7. [instanceID] takes the configured instance name when there is one
    and the host name otherwise, and then replaces every character of that
    string outside [a-zA-Z0-9-] by a dash: rune by rune in general, byte by
    byte on ASCII input.  So ["My Host!"] gives ["My-Host-"], and an empty
    name on host ["db01.example.com"] gives ["db01-example-com"]. *)
Theorem instanceID_sanitizes (hostname : string) (s : Syncer) :
  (exists chosen,
      (Instance (c s) <> "" -> chosen = Instance (c s))
      /\ (Instance (c s) = "" -> chosen = hostname)
      /\ instanceID hostname s
         = String.concat ""
             (map (fun p => if safeRune (fst p) then snd p else "-")
                  (regexp.runes chosen))
      /\ (isASCII chosen = true ->
          instanceID hostname s = mapChars sanitizeChar chosen))
  /\ (Instance (c s) = "My Host!" -> instanceID hostname s = "My-Host-")
  /\ (Instance (c s) = "" -> hostname = "db01.example.com" ->
      instanceID hostname s = "db01-example-com").
Proof.
  split; [|split].
  - exists (if String.eqb (Instance (c s)) "" then hostname
            else Instance (c s)).
    destruct (String.eqb_spec (Instance (c s)) "") as [He|Hne].
    + split; [congruence|]. split; [reflexivity|].
      unfold instanceID. rewrite He. cbn [String.eqb]. split.
      * unfold regexp.ReplaceAllString. f_equal. apply map_ext.
        intros p. rewrite matchRune_reUnsafe. now destruct (safeRune (fst p)).
      * apply ReplaceAllString_ascii.
    + split; [reflexivity|]. split; [congruence|].
      unfold instanceID.
      destruct (String.eqb_spec (Instance (c s)) ""); [contradiction|].
      split.
      * unfold regexp.ReplaceAllString. f_equal. apply map_ext.
        intros p. rewrite matchRune_reUnsafe. now destruct (safeRune (fst p)).
      * apply ReplaceAllString_ascii.
  - intros He. unfold instanceID. rewrite He. reflexivity.
  - intros He ->. unfold instanceID. rewrite He. reflexivity.
Qed.

(** C10. Every character of the result of [instanceID] lies in
    [a-zA-Z0-9-]; so a non-empty result, configured as the instance name,
    is returned as it is. *)
Theorem instanceID_safe_idempotent (hostname : string) (s : Syncer) :
  forallChars safeChar (instanceID hostname s) = true
  /\ (forall hostname' s',
        instanceID hostname s <> "" ->
        Instance (c s') = instanceID hostname s ->
        instanceID hostname' s' = instanceID hostname s).
Proof.
  assert (Hsafe : forallChars safeChar (instanceID hostname s) = true).
  { unfold instanceID, regexp.ReplaceAllString, regexp.runes.
    apply (replaceRune_safe 0). }
  split; [exact Hsafe|].
  intros hostname' s' Hne Hcfg.
  unfold instanceID at 1. rewrite Hcfg.
  destruct (String.eqb_spec (instanceID hostname s) ""); [contradiction|].
  rewrite ReplaceAllString_ascii by now apply safe_isASCII.
  now apply mapChars_safe.
Qed.

(** ** Environment lifecycle *)

Lemma closeCount_app (env : lmdb.Env) (t t' : list event) :
  closeCount env (t ++ t') = (closeCount env t + closeCount env t')%nat.
Proof.
  induction t as [|e t IH]; [reflexivity|].
  destruct e; cbn [app closeCount]; rewrite IH; try reflexivity.
  now rewrite Nat.add_assoc.
Qed.

(** [closeEnv] calls [env.Close()] once, writes a warning when that fails,
    and has nothing to return. *)
Lemma closeEnv_trace (E : Engine) (s : Syncer) (env : lmdb.Env)
    (t : list event) :
  closeEnv E s env t
  = (tt, t ++ CallClose env (Close E env)
           :: match Close E env with
              | Some err =>
                  [Log WarnLevel [("error", FError err)]
                     "Env close returned error"]
              | None => []
              end).
Proof.
  unfold closeEnv, callClose, seq, emit, pure.
  destruct (Close E env) as [err|]; [|reflexivity].
  now rewrite <- app_assoc.
Qed.

Lemma closeEnv_once (E : Engine) (s : Syncer) (env : lmdb.Env)
    (t : list event) :
  closeCount env (snd (closeEnv E s env t)) = S (closeCount env t).
Proof.
  rewrite closeEnv_trace. cbn [snd]. rewrite closeCount_app.
  cbn [closeCount]. rewrite Z.eqb_refl.
  destruct (Close E env); cbn [closeCount]; lia.
Qed.

(** When [env.Info()] fails after a successful open, [openEnv] returns the
    error alone: it hands no handle to the caller and calls no [Close]. *)
Lemma openEnv_info_error (E : Engine) (s : Syncer) (env : lmdb.Env)
    (err : error) (t : list event) :
  NewWithOptions E (Path (lc s)) (Options (lc s)) = inr env ->
  Info E env = inl err ->
  fst (openEnv E s t) = inl err
  /\ opened env (snd (openEnv E s t)) = true
  /\ closeCount env (snd (openEnv E s t)) = closeCount env t.
Proof.
  intros Hnew Hinfo.
  unfold openEnv, callNewWithOptions, callInfo, seq, emit, pure.
  rewrite Hnew, Hinfo. cbn [fst snd]. split; [reflexivity|]. split.
  - induction t as [|e t IH]; cbn [app opened].
    + now rewrite Z.eqb_refl.
    + destruct e; try exact IH. destruct r; [exact IH|].
      now rewrite IH, orb_true_r.
  - rewrite !closeCount_app. cbn [closeCount]. lia.
Qed.

(** ** Stats monitor *)

Lemma goroutines_app (t t' : list event) :
  goroutines (t ++ t') = goroutines t ++ goroutines t'.
Proof.
  induction t as [|e t IH]; [reflexivity|].
  destruct e; cbn [app goroutines]; now rewrite IH.
Qed.

(** With a positive interval a goroutine is started, and it samples once
    per tick until the context is done. *)
Lemma startStatsLogger_enabled (s : Syncer) (ctx : Context)
    (env : lmdb.Env) :
  0 < LMDBLogStatsInterval (c s) ->
  samplingCalls (snd (startStatsLogger s ctx env []))
    [TickerC; TickerC; CtxDone; TickerC]
  = [ StatsLog env (LMDBScrapeSmaps (c s));
      StatsLog env (LMDBScrapeSmaps (c s)) ].
Proof.
  intros Hpos. unfold startStatsLogger.
  destruct (Z.leb_spec (LMDBLogStatsInterval (c s)) 0); [lia|].
  reflexivity.
Qed.

(** C9. With an interval of zero or less, [startStatsLogger] writes that
    stats logging is disabled and returns: the trace gains that one line, no
    goroutine is started, and whatever the ticker and the context do
    afterwards, no sampling call is made. *)
Theorem startStatsLogger_disabled (s : Syncer) (ctx : Context)
    (env : lmdb.Env) (t : list event)
    (Hinterval : LMDBLogStatsInterval (c s) <= 0) :
  startStatsLogger s ctx env t
  = (tt, t ++ [Log InfoLevel [] "LMDB stats logging disabled"])
  /\ goroutines (snd (startStatsLogger s ctx env t)) = goroutines t
  /\ (forall sel, samplingCalls (snd (startStatsLogger s ctx env [])) sel = []).
Proof.
  unfold startStatsLogger.
  destruct (Z.leb_spec (LMDBLogStatsInterval (c s)) 0); [|lia].
  unfold emit. cbn [snd]. split; [reflexivity|]. split.
  - rewrite goroutines_app. cbn [goroutines]. apply app_nil_r.
  - reflexivity.
Qed.

(** * The properties at concrete tables and names *)

Ltac has_headers :=
  repeat (constructor; [vm_compute; lia|]); constructor.

Ltac distinct_keys :=
  let i := fresh "i" in
  let Ha := fresh "Ha" in
  let Hb := fresh "Hb" in
  intros i ? ? Ha Hb;
  do 4 (try (destruct i as [|i];
             [cbn in Ha, Hb; try discriminate;
              injection Ha as <-; injection Hb as <-; cbn; discriminate|]));
  cbn in Hb; destruct i; discriminate.

(** C1, at a stored value of eight zero bytes: [readDBI] in non-raw mode
    returns the entry with [TimestampNano = 0], where the comment of
    [ErrNoTimestamp] promises that error for a timestamp of 0. *)
Theorem readDBI_zero_timestamp :
  readDBI (testSyncer "node" 0 false)
    (tableTxn "db" 0
       [ {| lmdbenv.Key := [x6b];
            lmdbenv.Val := [x00; x00; x00; x00; x00; x00; x00; x00] |} ])
    "db" false
  = inr {| snapshot.Name := "db";
           snapshot.Entries :=
             [ {| snapshot.Key := [x6b];
                  snapshot.Value := [];
                  snapshot.TimestampNano := 0 |} ];
           snapshot.Flags := 0 |}.
Proof. reflexivity. Qed.

Lemma readDBI_round_trip_witness :
  exists msg,
    readDBI (testSyncer "node" 0 false) (tableTxn "db" 0 tableBA) "db" false
    = inr msg
    /\ nth_error (snapshot.Entries msg) 0
       = Some {| snapshot.Key := [x62];
                 snapshot.Value := [x68; x69];
                 snapshot.TimestampNano := 1700000000000000000 |}
    /\ (forall j item,
          nth_error tableBA j = Some item ->
          List.length (lmdbenv.Val item) = HeaderSize ->
          nth_error (snapshot.Entries msg) j
          = Some {| snapshot.Key := lmdbenv.Key item;
                    snapshot.Value := [];
                    snapshot.TimestampNano :=
                      binary.BigEndian_Uint64 (lmdbenv.Val item) |}).
Proof.
  apply (readDBI_round_trip (testSyncer "node" 0 false)
           (tableTxn "db" 0 tableBA) "db" 1
           {| lmdb.Entries := 2 |} tableBA 0
           eq_refl eq_refl eq_refl eq_refl
           0%nat [x62] [x68; x69] 1700000000000000000).
  - lia.
  - reflexivity.
  - discriminate.
  - has_headers.
  - intros _. distinct_keys.
Defined.

Lemma readDBI_no_timestamp_witness :
  readDBI (testSyncer "node" 0 false) (tableTxn "db" 0 tableShort) "db" false
  = inl (ErrNoTimestamp "db" [x62]).
Proof.
  apply (proj1 (proj2
           (readDBI_no_timestamp (testSyncer "node" 0 false)
              (tableTxn "db" 0 tableShort) "db" 1
              {| lmdb.Entries := 3 |} tableShort 0
              eq_refl eq_refl eq_refl eq_refl))
           [stamped [x61] 1 []]
           {| lmdbenv.Key := [x62]; lmdbenv.Val := [x01; x02; x03] |}
           [stamped [x63] 3 []]).
  - reflexivity.
  - has_headers.
  - vm_compute. lia.
  - discriminate.
  - intros _. distinct_keys.
Defined.

Lemma readDBI_dupsort_unsupported_witness :
  readDBI (testSyncer "node" 0 false) (tableTxn "db" 4 tableKK) "db" false
  = inl (errDupSortUnsupported "db").
Proof.
  apply (proj2
           (readDBI_dupsort_unsupported (testSyncer "node" 0 false)
              (tableTxn "db" 4 tableKK) "db" false 1 4
              eq_refl eq_refl eq_refl eq_refl)
           {| lmdb.Entries := 2 |} tableKK eq_refl eq_refl).
Defined.

Lemma readDBI_duplicate_key_witness :
  readDBI (testSyncer "node" 0 false) (tableTxn "db" 0 tableKK) "db" false
  = inl (errDuplicateKey "db")
  /\ readDBI (testSyncer "node" 0 true) (tableTxn "db" 4 tableKK) "db" false
     = inr {| snapshot.Name := "db";
              snapshot.Entries := map (kvOf false) tableKK;
              snapshot.Flags := 4 |}.
Proof.
  split.
  - apply (proj1 (readDBI_duplicate_key (testSyncer "node" 0 false)
                    (tableTxn "db" 0 tableKK) "db" 1
                    {| lmdb.Entries := 2 |} tableKK 0
                    eq_refl eq_refl eq_refl eq_refl false));
      [reflexivity|].
    exists 0%nat, (stamped [x6b] 1 [x31]), (stamped [x6b] 2 [x32]).
    repeat split.
    intros _ j item Hj Hitem. assert (j = 0%nat) as -> by lia.
    injection Hitem as <-. vm_compute. lia.
  - apply (proj2 (proj2 (readDBI_duplicate_key (testSyncer "node" 0 true)
                    (tableTxn "db" 4 tableKK) "db" 1
                    {| lmdb.Entries := 2 |} tableKK 4
                    eq_refl eq_refl eq_refl eq_refl false)));
      [reflexivity | reflexivity |].
    intros _. has_headers.
Defined.

Lemma readDBI_preserves_order_witness :
  exists msg,
    readDBI (testSyncer "node" 0 false) (tableTxn "db" 0 tableBA) "db" false
    = inr msg
    /\ List.length (snapshot.Entries msg) = 2%nat
    /\ map snapshot.Key (snapshot.Entries msg) = [[x62]; [x61]]
    /\ snapshot.Entries msg = map (kvOf false) tableBA.
Proof.
  apply (readDBI_preserves_order (testSyncer "node" 0 false)
           (tableTxn "db" 0 tableBA) "db" 1
           {| lmdb.Entries := 2 |} tableBA 0
           eq_refl eq_refl eq_refl eq_refl).
  - reflexivity.
  - has_headers.
  - distinct_keys.
Defined.

Lemma instanceID_sanitizes_witness :
  instanceID "ignored" (testSyncer "My Host!" 0 false) = "My-Host-"
  /\ instanceID "db01.example.com" (testSyncer "" 0 false)
     = "db01-example-com".
Proof.
  split.
  - apply (proj1 (proj2 (instanceID_sanitizes "ignored"
                           (testSyncer "My Host!" 0 false)))).
    reflexivity.
  - apply (proj2 (proj2 (instanceID_sanitizes "db01.example.com"
                           (testSyncer "" 0 false))));
      reflexivity.
Defined.

Lemma instanceID_safe_idempotent_witness :
  instanceID "other" (testSyncer "My-Host-" 0 false)
  = instanceID "ignored" (testSyncer "My Host!" 0 false).
Proof.
  apply (proj2 (instanceID_safe_idempotent "ignored"
                  (testSyncer "My Host!" 0 false))
           "other" (testSyncer "My-Host-" 0 false)).
  - discriminate.
  - reflexivity.
Defined.

Lemma startStatsLogger_disabled_witness :
  startStatsLogger (testSyncer "node" (-5) false) 1 7 []
  = (tt, [Log InfoLevel [] "LMDB stats logging disabled"])
  /\ goroutines (snd (startStatsLogger (testSyncer "node" (-5) false) 1 7 []))
     = []
  /\ (forall sel,
        samplingCalls
          (snd (startStatsLogger (testSyncer "node" (-5) false) 1 7 [])) sel
        = []).
Proof.
  apply (startStatsLogger_disabled (testSyncer "node" (-5) false) 1 7 []).
  cbn. lia.
Defined.


(** * Further properties *)

(** ** The header, decoded and encoded again *)

Lemma byte_of_Z_u64 (v : Z) (b : byte) :
  v mod 2 ^ 8 = u64 b -> byte_of_Z v = b.
Proof.
  intros Hv. unfold byte_of_Z. rewrite Hv. unfold u64.
  now rewrite N2Z.id, Byte.of_to_N.
Qed.

Lemma u64_testbit_high (b : byte) (i : Z) :
  8 <= i -> Z.testbit (u64 b) i = false.
Proof.
  intros Hi. pose proof (u64_range b) as Hb.
  rewrite <- (Z.mod_small (u64 b) (2 ^ 8)) by lia.
  rewrite Z.testbit_mod_pow2 by lia.
  destruct (Z.ltb_spec i 8); [lia | reflexivity].
Qed.

(** Settles the bits of the bytes of a header: a bit below a byte or above
    it is not set. *)
Ltac header_bits :=
  repeat match goal with
         | |- context [Z.testbit (u64 ?b) ?i] =>
             first [ rewrite (Z.testbit_neg_r (u64 b) i) by lia
                   | rewrite (u64_testbit_high b i) by lia ]
         end.

Lemma header_byte (b0 b1 b2 b3 b4 b5 b6 b7 b : byte) (k : Z) :
  (forall n, 0 <= n < 8 ->
     Z.testbit (binary.BigEndian_Uint64 [b0; b1; b2; b3; b4; b5; b6; b7])
       (n + k)
     = Z.testbit (u64 b) n) ->
  0 <= k ->
  byte_of_Z (Z.shiftr
               (binary.BigEndian_Uint64 [b0; b1; b2; b3; b4; b5; b6; b7]) k)
  = b.
Proof.
  intros Hbits Hk. apply byte_of_Z_u64. apply Z.bits_inj'. intros n Hn.
  rewrite Z.testbit_mod_pow2 by lia.
  destruct (Z.ltb_spec n 8) as [Hlt|Hge]; cbn [andb].
  - rewrite Z.shiftr_spec by lia. apply Hbits. lia.
  - symmetry. now apply u64_testbit_high.
Qed.

Lemma Uint64_bit (b0 b1 b2 b3 b4 b5 b6 b7 : byte) (m : Z) :
  0 <= m ->
  Z.testbit (binary.BigEndian_Uint64 [b0; b1; b2; b3; b4; b5; b6; b7]) m
  = Z.testbit (u64 b7) m
    || Z.testbit (u64 b6) (m - 8) || Z.testbit (u64 b5) (m - 16)
    || Z.testbit (u64 b4) (m - 24) || Z.testbit (u64 b3) (m - 32)
    || Z.testbit (u64 b2) (m - 40) || Z.testbit (u64 b1) (m - 48)
    || Z.testbit (u64 b0) (m - 56).
Proof.
  intros Hm. unfold binary.BigEndian_Uint64.
  rewrite !Z.lor_spec, !Z.shiftl_spec by lia.
  now rewrite !orb_assoc.
Qed.

Lemma BigEndian_PutUint64_Uint64 (b0 b1 b2 b3 b4 b5 b6 b7 : byte) :
  binary.BigEndian_PutUint64
    (binary.BigEndian_Uint64 [b0; b1; b2; b3; b4; b5; b6; b7])
  = [b0; b1; b2; b3; b4; b5; b6; b7].
Proof.
  unfold binary.BigEndian_PutUint64.
  rewrite <- (Z.shiftr_0_r
                (binary.BigEndian_Uint64 [b0; b1; b2; b3; b4; b5; b6; b7]))
    at 8.
  repeat f_equal; apply header_byte; try lia;
    intros n Hn; rewrite Uint64_bit by lia;
    match goal with
    | |- _ = Z.testbit (u64 ?b) _ =>
        repeat match goal with
               | |- context [Z.testbit (u64 ?b') ?i] =>
                   lazymatch b' with
                   | b => fail
                   | _ => first
                            [ rewrite (Z.testbit_neg_r (u64 b') i) by lia
                            | rewrite (u64_testbit_high b' i) by lia ]
                   end
               end
    end;
    rewrite ?orb_false_r, ?orb_false_l; f_equal; lia.
Qed.

Lemma BigEndian_Uint64_range (b : bytes) :
  0 <= binary.BigEndian_Uint64 b < 2 ^ 64.
Proof.
  destruct b as [|b0 [|b1 [|b2 [|b3 [|b4 [|b5 [|b6 [|b7 rest]]]]]]]];
    try (cbn; lia).
  change (binary.BigEndian_Uint64 (b0 :: b1 :: b2 :: b3 :: b4 :: b5 :: b6
                                     :: b7 :: rest))
    with (binary.BigEndian_Uint64 [b0; b1; b2; b3; b4; b5; b6; b7]).
  set (V := binary.BigEndian_Uint64 [b0; b1; b2; b3; b4; b5; b6; b7]).
  assert (Hnn : 0 <= V).
  { unfold V, binary.BigEndian_Uint64.
    repeat (apply Z.lor_nonneg; split);
      try (apply Z.shiftl_nonneg); apply u64_range. }
  assert (Hmod : V mod 2 ^ 64 = V).
  { apply Z.bits_inj'. intros n Hn. rewrite Z.testbit_mod_pow2 by lia.
    destruct (Z.ltb_spec n 64) as [Hlt|Hge]; [reflexivity|]. cbn [andb].
    unfold V. rewrite Uint64_bit by lia. header_bits. reflexivity. }
  rewrite <- Hmod. apply Z.mod_pos_bound. lia.
Qed.

(** A value that holds a header is the header of its timestamp followed by
    its payload. *)
Lemma header_split (val : bytes) :
  (HeaderSize <= List.length val)%nat ->
  binary.BigEndian_PutUint64 (binary.BigEndian_Uint64 (firstn HeaderSize val))
    ++ skipn HeaderSize val
  = val.
Proof.
  intros Hl.
  destruct val as [|b0 [|b1 [|b2 [|b3 [|b4 [|b5 [|b6 [|b7 rest]]]]]]]];
    try (cbn in Hl; unfold HeaderSize in Hl; lia).
  change (firstn HeaderSize (b0 :: b1 :: b2 :: b3 :: b4 :: b5 :: b6 :: b7
                               :: rest))
    with [b0; b1; b2; b3; b4; b5; b6; b7].
  change (skipn HeaderSize (b0 :: b1 :: b2 :: b3 :: b4 :: b5 :: b6 :: b7
                              :: rest))
    with rest.
  now rewrite BigEndian_PutUint64_Uint64.
Qed.

(** ** More on the snapshot extractor *)

(** Every way in which the loop fails. *)
Lemma readLoop_inl (dbiName : string) (rawValues dup : bool)
    (items : list lmdbenv.KV) :
  forall prev msg e,
    readLoop dbiName rawValues dup items prev msg = inl e ->
    (dup = false /\ e = errDuplicateKey dbiName)
    \/ (rawValues = false
        /\ exists item,
             In item items /\ ~ hasHeader item
             /\ e = ErrNoTimestamp dbiName (lmdbenv.Key item)).
Proof.
  induction items as [|item items IH]; intros prev msg e; cbn [readLoop].
  - discriminate.
  - destruct (match prev with
              | Some p => negb dup && bytes_Equal p (lmdbenv.Key item)
              | None => false
              end) eqn:Hd.
    + intros [= <-]. left. split; [|reflexivity].
      destruct prev as [p|]; [|discriminate]. now destruct dup.
    + destruct rawValues; cbn [negb].
      * cbn [bind ret]. intros H. apply IH in H.
        destruct H as [H | [Hr _]]; [now left | discriminate].
      * destruct (List.length (lmdbenv.Val item) <? HeaderSize)%nat eqn:Hl.
        -- cbn [bind raise]. intros [= <-]. right. split; [reflexivity|].
           exists item. split; [now left|]. split; [|reflexivity].
           apply Nat.ltb_lt in Hl. unfold hasHeader. lia.
        -- cbn [bind ret]. intros H. apply IH in H.
           destruct H as [H | [_ (it & Hin & Hshort & ->)]]; [now left|].
           right. split; [reflexivity|]. exists it.
           split; [now right|]. split; [exact Hshort | reflexivity].
Qed.

Section ExtractorOutcomes.

Variables (s : Syncer) (txn : Txn) (dbiName : string).
Variables (dbi : lmdb.DBI) (stat : lmdb.Stat).
Variables (items : list lmdbenv.KV) (dbiFlags : Z).
Hypothesis Hopen : OpenDBI txn dbiName 0 = inr dbi.
Hypothesis Hstat : Stat txn dbi = inr stat.
Hypothesis Hread : ReadDBI txn dbi = inr items.
Hypothesis Hflags : Flags txn dbi = inr dbiFlags.

(** X1. In raw mode the length of a value plays no part: a table that
    passes the flag and neighbour checks is read whatever its values are,
    every value is stored unchanged and every timestamp is 0. *)
Theorem readDBI_raw_values
    (Hswitch : isDupSort dbiFlags = true -> DupSortHack (lc s) = true)
    (Hkeys : isDupSort dbiFlags = false -> distinctNeighbours items) :
  exists msg,
    readDBI s txn dbiName true = inr msg
    /\ List.length (snapshot.Entries msg) = List.length items
    /\ forall i item,
         nth_error items i = Some item ->
         nth_error (snapshot.Entries msg) i
         = Some {| snapshot.Key := lmdbenv.Key item;
                   snapshot.Value := lmdbenv.Val item;
                   snapshot.TimestampNano := 0 |}.
Proof.
  eexists. split.
  - apply (readDBI_ok s txn dbiName dbi stat items dbiFlags
             Hopen Hstat Hread Hflags true Hswitch);
      [discriminate | exact Hkeys].
  - cbn [snapshot.Entries]. split; [apply length_map|].
    intros i item Hi. now rewrite nth_error_map, Hi.
Qed.

Lemma readDBI_inr_checks (rawValues : bool) (msg : snapshot.DBI) :
  readDBI s txn dbiName rawValues = inr msg ->
  (isDupSort dbiFlags = true -> DupSortHack (lc s) = true)
  /\ (isDupSort dbiFlags = false -> distinctNeighbours items).
Proof.
  rewrite (readDBI_setup s txn dbiName dbi stat items dbiFlags)
    by assumption.
  destruct (isDupSort dbiFlags) eqn:Hd;
    destruct (DupSortHack (lc s)) eqn:Hh; cbn [andb negb];
    try discriminate;
    intros H; apply readLoop_inr in H; destruct H as (_ & _ & Hc);
    (split; [congruence|]); intros Hf; try discriminate;
    apply chain_distinctNeighbours; now apply Hc.
Qed.

(** X2. A snapshot is returned exactly when the switch admits the flags,
    every value holds a header (outside raw mode) and no key repeats its
    neighbour (without several values per key); the snapshot then has the
    name asked for, the flags of the table unchanged and one entry per
    stored pair, in order. *)
Theorem readDBI_succeeds_iff (rawValues : bool) (msg : snapshot.DBI) :
  readDBI s txn dbiName rawValues = inr msg
  <-> ((isDupSort dbiFlags = true -> DupSortHack (lc s) = true)
       /\ (rawValues = false -> Forall hasHeader items)
       /\ (isDupSort dbiFlags = false -> distinctNeighbours items)
       /\ msg = {| snapshot.Name := dbiName;
                   snapshot.Entries := map (kvOf rawValues) items;
                   snapshot.Flags := dbiFlags |}).
Proof.
  split.
  - intros H. destruct (readDBI_inr_checks rawValues msg H) as [Hsw Hk].
    apply (readDBI_inr s txn dbiName dbi stat items dbiFlags
             Hopen Hstat Hread Hflags) in H.
    destruct H as [-> Hv]. auto.
  - intros (Hsw & Hv & Hk & ->).
    now apply (readDBI_ok s txn dbiName dbi stat items dbiFlags).
Qed.

(** X3. Once the engine has opened and listed the table, [readDBI] fails
    in three ways only: the refusal of a table with several values per key
    (flag set, switch off), the duplicate-key error (flag not set), or
    [ErrNoTimestamp] in non-raw mode, with the name of this table and the
    key of one of its entries whose value is too short. *)
Theorem readDBI_error_kinds (rawValues : bool) (e : error) :
  readDBI s txn dbiName rawValues = inl e ->
  (e = errDupSortUnsupported dbiName
   /\ isDupSort dbiFlags = true /\ DupSortHack (lc s) = false)
  \/ (e = errDuplicateKey dbiName /\ isDupSort dbiFlags = false)
  \/ (rawValues = false
      /\ exists item,
           In item items /\ ~ hasHeader item
           /\ e = ErrNoTimestamp dbiName (lmdbenv.Key item)).
Proof.
  rewrite (readDBI_setup s txn dbiName dbi stat items dbiFlags)
    by assumption.
  destruct (isDupSort dbiFlags && negb (DupSortHack (lc s))) eqn:Hsw.
  - intros [= <-]. left. apply andb_true_iff in Hsw.
    destruct Hsw as [Hd Hh]. apply negb_true_iff in Hh. auto.
  - intros H. apply readLoop_inl in H.
    destruct H as [[Hd ->] | H]; [right; left; auto | right; right; exact H].
Qed.

(** X4. What a non-raw read splits, joins again: the header of the
    timestamp of an entry, followed by its value, is the stored value byte
    for byte, and the timestamp is an unsigned 64-bit number. *)
Theorem readDBI_reencode (msg : snapshot.DBI) (i : nat) (item : lmdbenv.KV)
    (Hok : readDBI s txn dbiName false = inr msg)
    (Hi : nth_error items i = Some item) :
  exists kv,
    nth_error (snapshot.Entries msg) i = Some kv
    /\ snapshot.Key kv = lmdbenv.Key item
    /\ binary.BigEndian_PutUint64 (snapshot.TimestampNano kv)
         ++ snapshot.Value kv
       = lmdbenv.Val item
    /\ 0 <= snapshot.TimestampNano kv < 2 ^ 64.
Proof.
  apply (readDBI_inr s txn dbiName dbi stat items dbiFlags
           Hopen Hstat Hread Hflags) in Hok.
  destruct Hok as [-> Hv]. specialize (Hv eq_refl).
  exists (kvOf false item). cbn [snapshot.Entries].
  rewrite nth_error_map, Hi. split; [reflexivity|].
  cbn [kvOf snapshot.Key snapshot.Value snapshot.TimestampNano].
  split; [reflexivity|]. split.
  - apply header_split. rewrite Forall_forall in Hv. apply Hv.
    eapply nth_error_In. exact Hi.
  - apply BigEndian_Uint64_range.
Qed.

(** X5. The two modes agree on what they accept: a table read in non-raw
    mode is also read in raw mode, with the same keys in the same order,
    and a raw value is the non-raw value behind the header of its
    timestamp. *)
Theorem readDBI_raw_of_non_raw (msg : snapshot.DBI)
    (Hok : readDBI s txn dbiName false = inr msg) :
  exists raw,
    readDBI s txn dbiName true = inr raw
    /\ map snapshot.Key (snapshot.Entries raw)
       = map snapshot.Key (snapshot.Entries msg)
    /\ map snapshot.Value (snapshot.Entries raw)
       = map (fun kv =>
                binary.BigEndian_PutUint64 (snapshot.TimestampNano kv)
                  ++ snapshot.Value kv)
             (snapshot.Entries msg).
Proof.
  destruct (readDBI_inr_checks false msg Hok) as [Hsw Hk].
  apply (readDBI_inr s txn dbiName dbi stat items dbiFlags
           Hopen Hstat Hread Hflags) in Hok.
  destruct Hok as [-> Hv]. specialize (Hv eq_refl).
  eexists. split.
  - apply (readDBI_ok s txn dbiName dbi stat items dbiFlags
             Hopen Hstat Hread Hflags true Hsw); [discriminate | exact Hk].
  - cbn [snapshot.Entries]. rewrite !map_map. split.
    + apply map_ext. reflexivity.
    + apply map_ext_in. intros item Hin.
      cbn [kvOf snapshot.Value snapshot.TimestampNano]. symmetry.
      apply header_split. rewrite Forall_forall in Hv. now apply Hv.
Qed.

End ExtractorOutcomes.

(** X6. An error of the engine is handed on as it is, by the first call
    that fails: [OpenDBI], then [Stat], then [lmdbenv.ReadDBI], then
    [Flags].  So a table that cannot be listed gives the error of the
    listing, whatever its flags are. *)
Theorem readDBI_engine_error (s : Syncer) (txn : Txn) (dbiName : string)
    (rawValues : bool) (e : error) :
  (OpenDBI txn dbiName 0 = inl e
   \/ exists dbi,
        OpenDBI txn dbiName 0 = inr dbi
        /\ (Stat txn dbi = inl e
            \/ exists stat,
                 Stat txn dbi = inr stat
                 /\ (ReadDBI txn dbi = inl e
                     \/ exists items,
                          ReadDBI txn dbi = inr items
                          /\ Flags txn dbi = inl e))) ->
  readDBI s txn dbiName rawValues = inl e.
Proof.
  unfold readDBI.
  intros [H | (dbi & Ho & [H | (stat & Hs & [H | (items & Hr & H)])])].
  - now rewrite H.
  - rewrite Ho. cbn [bind]. now rewrite H.
  - rewrite Ho. cbn [bind]. rewrite Hs. cbn [bind]. now rewrite H.
  - rewrite Ho. cbn [bind]. rewrite Hs. cbn [bind]. rewrite Hr. cbn [bind].
    now rewrite H.
Qed.

(** ** More on identity naming *)

Lemma length_append (a b : string) :
  String.length (a ++ b) = (String.length a + String.length b)%nat.
Proof.
  induction a as [|ch a IH]; cbn [String.append String.length];
    [reflexivity | now rewrite IH].
Qed.

Lemma mapChars_append (f : ascii -> ascii) (a b : string) :
  mapChars f (a ++ b) = (mapChars f a ++ mapChars f b)%string.
Proof.
  induction a as [|ch a IH]; cbn [String.append mapChars];
    [reflexivity | now rewrite IH].
Qed.

Lemma mapChars_length (f : ascii -> ascii) (src : string) :
  String.length (mapChars f src) = String.length src.
Proof.
  induction src as [|ch src IH]; cbn [mapChars String.length];
    [reflexivity | now rewrite IH].
Qed.

(** Each rune gives one byte of the result. *)
Lemma replaceRune_length (skip : nat) (src : string) :
  String.length
    (String.concat "" (map replaceRune (regexp.runesFrom skip src)))
  = List.length (regexp.runesFrom skip src).
Proof.
  revert skip; induction src as [|c0 t IH]; intros skip;
    cbn [regexp.runesFrom]; [reflexivity|].
  destruct skip as [|k]; [|apply IH].
  destruct (regexp.step (String c0 t)) as [r w] eqn:Hstep.
  cbn [map List.length]. rewrite concat_cons, length_append, IH. f_equal.
  unfold replaceRune. cbn [fst snd]. rewrite matchRune_reUnsafe.
  destruct (safeRune r) eqn:Hr; cbn [negb]; [|reflexivity].
  assert (Hs : safeRune (fst (regexp.step (String c0 t))) = true)
    by now rewrite Hstep.
  apply step_safe in Hs. rewrite Hstep in Hs. injection Hs as -> ->.
  now destruct t.
Qed.

Lemma runesFrom_length (skip : nat) (src : string) :
  (List.length (regexp.runesFrom skip src) <= String.length src)%nat.
Proof.
  revert skip; induction src as [|c0 t IH]; intros skip;
    cbn [regexp.runesFrom String.length]; [apply Nat.le_refl|].
  destruct skip as [|k].
  - destruct (regexp.step (String c0 t)) as [r w]. cbn [List.length].
    apply le_n_S, IH.
  - apply Nat.le_trans with (String.length t); [apply IH | apply Nat.le_succ_diag_r].
Qed.

Lemma instanceID_chosen (hostname : string) (s : Syncer) :
  instanceID hostname s
  = String.concat ""
      (map replaceRune (regexp.runes (chosenName hostname s))).
Proof. reflexivity. Qed.

(** X7. The result of [instanceID] has one byte for each character (rune)
    of the name it sanitizes: it is never longer than that name, and as
    long when the name is ASCII. *)
Theorem instanceID_length (hostname : string) (s : Syncer) :
  String.length (instanceID hostname s)
  = List.length (regexp.runes (chosenName hostname s))
  /\ (String.length (instanceID hostname s)
      <= String.length (chosenName hostname s))%nat
  /\ (isASCII (chosenName hostname s) = true ->
      String.length (instanceID hostname s)
      = String.length (chosenName hostname s)).
Proof.
  rewrite instanceID_chosen. unfold regexp.runes.
  rewrite replaceRune_length. split; [reflexivity|]. split.
  - apply runesFrom_length.
  - intros Hascii. rewrite <- replaceRune_length.
    change (String.concat ""
              (map replaceRune (regexp.runesFrom 0 (chosenName hostname s))))
      with (regexp.ReplaceAllString reUnsafe (chosenName hostname s) "-").
    now rewrite ReplaceAllString_ascii, mapChars_length.
Qed.

(** X8. [instanceID] is empty only when there is nothing to name the
    instance: no configured name and an empty host name, which is what
    [init] leaves when [os.Hostname] fails. *)
Theorem instanceID_empty_iff (h : result string) (s : Syncer) :
  instanceID (init h) s = ""
  <-> Instance (c s) = ""
      /\ ((exists e, h = inl e) \/ h = inr "").
Proof.
  assert (Hlen : instanceID (init h) s = "" <-> chosenName (init h) s = "").
  { rewrite instanceID_chosen. unfold regexp.runes.
    destruct (chosenName (init h) s) as [|c0 t] eqn:Hc.
    - split; reflexivity.
    - split; [|discriminate]. intros He.
      apply (f_equal String.length) in He.
      rewrite replaceRune_length in He. cbn [regexp.runesFrom] in He.
      destruct (regexp.step (String c0 t)); discriminate. }
  rewrite Hlen. unfold chosenName.
  destruct (String.eqb_spec (Instance (c s)) "") as [He|Hne].
  - destruct h as [e|name]; cbn [init].
    + split; [|reflexivity]. intros _. split; [exact He|]. left. now exists e.
    + split.
      * intros ->. split; [exact He | now right].
      * intros [_ [[e He'] | [= ->]]]; [discriminate | reflexivity].
  - split; [intros H; contradiction | intros [H _]; contradiction].
Qed.

(** X9. The names that [instanceID] returns as they are, are exactly the
    names made of [a-zA-Z0-9-] only. *)
Theorem instanceID_fixed_point_iff (hostname : string) (s : Syncer) :
  instanceID hostname s = chosenName hostname s
  <-> forallChars safeChar (chosenName hostname s) = true.
Proof.
  split.
  - intros H. rewrite <- H. rewrite instanceID_chosen.
    apply (replaceRune_safe 0).
  - intros Hsafe.
    change (instanceID hostname s)
      with (regexp.ReplaceAllString reUnsafe (chosenName hostname s) "-").
    rewrite ReplaceAllString_ascii by now apply safe_isASCII.
    now apply mapChars_safe.
Qed.

(** X10. Names that differ in one unsafe ASCII character only get the same
    identifier: sanitizing does not keep names apart. *)
Theorem instanceID_unsafe_collide (h1 h2 : string) (s1 s2 : Syncer)
    (p q : string) (x y : ascii)
    (Hp : isASCII p = true) (Hq : isASCII q = true)
    (Hx : code x < utf8.RuneSelf) (Hy : code y < utf8.RuneSelf)
    (Ux : safeChar x = false) (Uy : safeChar y = false)
    (H1 : Instance (c s1) = (p ++ String x q)%string)
    (H2 : Instance (c s2) = (p ++ String y q)%string) :
  instanceID h1 s1 = instanceID h2 s2.
Proof.
  assert (Hgen : forall h s z,
             code z < utf8.RuneSelf -> safeChar z = false ->
             Instance (c s) = (p ++ String z q)%string ->
             instanceID h s
             = (mapChars sanitizeChar p
                ++ String "-" (mapChars sanitizeChar q))%string).
  { intros h s z Hz Uz Hs. unfold instanceID. rewrite Hs.
    assert (Hne : String.eqb (p ++ String z q) "" = false).
    { apply String.eqb_neq. destruct p; discriminate. }
    rewrite Hne, ReplaceAllString_ascii.
    - rewrite mapChars_append. cbn [mapChars]. unfold sanitizeChar at 2.
      now rewrite Uz.
    - unfold isASCII in *. rewrite forallChars_append. cbn [forallChars].
      rewrite Hp, Hq. apply Z.ltb_lt in Hz. now rewrite Hz. }
  now rewrite (Hgen h1 s1 x), (Hgen h2 s2 y).
Qed.

(** ** Generation identifiers *)

Lemma append_assoc (a b d : string) :
  ((a ++ b) ++ d = a ++ (b ++ d))%string.
Proof.
  induction a as [|ch a IH]; cbn [String.append];
    [reflexivity | now rewrite IH].
Qed.

Lemma hexValue_ldigits (d : Z) :
  0 <= d < 16 -> hexValue (fmt.ldigits d) = Some d.
Proof.
  intros Hd.
  assert (Hcases : d = 0 \/ d = 1 \/ d = 2 \/ d = 3 \/ d = 4 \/ d = 5
                   \/ d = 6 \/ d = 7 \/ d = 8 \/ d = 9 \/ d = 10 \/ d = 11
                   \/ d = 12 \/ d = 13 \/ d = 14 \/ d = 15) by lia.
  repeat destruct Hcases as [->|Hcases]; try reflexivity.
  now subst.
Qed.

(** The loop writes in front of what the buffer holds. *)
Lemma fmtInteger16_buf (turns : nat) :
  forall u buf,
    fmt.fmtInteger16 turns u buf
    = (fmt.fmtInteger16 turns u "" ++ buf)%string.
Proof.
  induction turns as [|turns IH]; intros u buf; cbn [fmt.fmtInteger16].
  - reflexivity.
  - destruct (16 <=? u); [|reflexivity].
    rewrite (IH _ (String _ buf)), (IH _ (String _ "")).
    now rewrite append_assoc.
Qed.

Lemma parseHexFrom_append (a b : string) :
  forall acc,
    parseHexFrom acc (a ++ b)
    = match parseHexFrom acc a with
      | Some v => parseHexFrom v b
      | None => None
      end.
Proof.
  induction a as [|ch a IH]; intros acc; cbn [String.append parseHexFrom].
  - reflexivity.
  - destruct (hexValue ch); [apply IH | reflexivity].
Qed.

Lemma fmtInteger16_parse (turns : nat) :
  forall u,
    0 <= u < 16 ^ Z.of_nat (S turns) ->
    parseHex (fmt.fmtInteger16 turns u "") = Some u
    /\ (String.length (fmt.fmtInteger16 turns u "") <= S turns)%nat.
Proof.
  unfold parseHex.
  induction turns as [|turns IH]; intros u Hu; cbn [fmt.fmtInteger16].
  - cbn [parseHexFrom String.length].
    rewrite hexValue_ldigits by (change (16 ^ Z.of_nat 1) with 16 in Hu; lia).
    split; [reflexivity | apply Nat.le_refl].
  - destruct (Z.leb_spec 16 u) as [Hge|Hlt].
    + rewrite fmtInteger16_buf, parseHexFrom_append, length_append.
      rewrite Z.shiftr_div_pow2 by lia.
      change 0xF with (Z.ones 4). rewrite Z.land_ones by lia.
      change (2 ^ 4) with 16.
      assert (Hq : 0 <= u / 16 < 16 ^ Z.of_nat (S turns)).
      { rewrite (Nat2Z.inj_succ (S turns)), Z.pow_succ_r in Hu by lia.
        split; [apply Z.div_pos; lia|].
        apply Z.div_lt_upper_bound; lia. }
      destruct (IH (u / 16) Hq) as [Hp Hl]. rewrite Hp.
      cbn [parseHexFrom String.length].
      rewrite hexValue_ldigits by (apply Z.mod_pos_bound; lia).
      split; [|lia]. f_equal.
      pose proof (Z.div_mod u 16). lia.
    + cbn [parseHexFrom String.length].
      rewrite hexValue_ldigits by lia.
      split; [reflexivity | lia].
Qed.

Lemma zeros_parse (n : nat) (buf : string) :
  parseHex (fmt.zeros n buf) = parseHex buf.
Proof.
  unfold parseHex. induction n as [|n IH]; [reflexivity|].
  cbn [fmt.zeros parseHexFrom]. exact IH.
Qed.

Lemma zeros_length (n : nat) (buf : string) :
  String.length (fmt.zeros n buf) = (n + String.length buf)%nat.
Proof.
  induction n as [|n IH]; [reflexivity|].
  cbn [fmt.zeros String.length]. now rewrite IH.
Qed.

Lemma Sprintf_016x_parse (u : Z) :
  0 <= u < 2 ^ 64 ->
  String.length (fmt.Sprintf_016x u) = 16%nat
  /\ parseHex (fmt.Sprintf_016x u) = Some u.
Proof.
  intros Hu. unfold fmt.Sprintf_016x.
  destruct (fmtInteger16_parse 15 u) as [Hp Hl].
  { change (16 ^ Z.of_nat 16) with (2 ^ 64). exact Hu. }
  rewrite zeros_length, zeros_parse. split; [lia | exact Hp].
Qed.

(** X11. A generation identifier is ["G-"] and sixteen lower-case
    hexadecimal digits, which read back as the generation. *)
Theorem generationID_round_trip (s : Syncer)
    (Hgen : 0 <= generation s < 2 ^ 64) :
  exists digits,
    generationID s = ("G-" ++ digits)%string
    /\ String.length digits = 16%nat
    /\ parseHex digits = Some (generation s).
Proof.
  exists (fmt.Sprintf_016x (generation s)).
  split; [reflexivity|]. now apply Sprintf_016x_parse.
Qed.

(** X12. Different generations have different identifiers. *)
Theorem generationID_injective (s1 s2 : Syncer)
    (H1 : 0 <= generation s1 < 2 ^ 64)
    (H2 : 0 <= generation s2 < 2 ^ 64)
    (Heq : generationID s1 = generationID s2) :
  generation s1 = generation s2.
Proof.
  unfold generationID in Heq. cbn [String.append] in Heq.
  injection Heq as Heq.
  destruct (Sprintf_016x_parse _ H1) as [_ P1].
  destruct (Sprintf_016x_parse _ H2) as [_ P2].
  rewrite Heq in P1. congruence.
Qed.

Lemma code_inj (a b : ascii) : code a = code b -> a = b.
Proof.
  unfold code. intros H. apply N2Z.inj in H.
  rewrite <- (ascii_N_embedding a), <- (ascii_N_embedding b). now rewrite H.
Qed.

Lemma ascii_compare_lt (a b : ascii) :
  code a < code b -> Ascii.compare a b = Lt.
Proof.
  unfold code, Ascii.compare. intros H. apply N.compare_lt_iff. lia.
Qed.

Lemma ascii_compare_refl (a : ascii) : Ascii.compare a a = Eq.
Proof. unfold Ascii.compare. apply N.compare_refl. Qed.

Lemma string_compare_refl (a : string) : String.compare a a = Eq.
Proof.
  induction a as [|ch a IH]; cbn [String.compare]; [reflexivity|].
  now rewrite ascii_compare_refl.
Qed.

Lemma hexValue_inv (ch : ascii) (d : Z) :
  hexValue ch = Some d ->
  (48 <= code ch <= 57 /\ d = code ch - 48)
  \/ (97 <= code ch <= 102 /\ d = code ch - 87).
Proof.
  unfold hexValue.
  destruct (Z.leb_spec 48 (code ch)), (Z.leb_spec (code ch) 57);
    cbn [andb]; try (intros [= <-]; left; lia);
    destruct (Z.leb_spec 97 (code ch)), (Z.leb_spec (code ch) 102);
    cbn [andb]; try discriminate; intros [= <-]; right; lia.
Qed.

(** A numeral of [n] digits read onto [acc] is [acc] shifted by [n] digits
    plus a value below [16 ^ n]. *)
Lemma parseHexFrom_value (src : string) :
  forall acc v,
    parseHexFrom acc src = Some v ->
    exists w,
      parseHexFrom 0 src = Some w
      /\ v = acc * 16 ^ Z.of_nat (String.length src) + w
      /\ 0 <= w < 16 ^ Z.of_nat (String.length src).
Proof.
  induction src as [|ch src IH]; intros acc v; cbn [parseHexFrom].
  - intros [= <-]. exists 0. cbn. split; [reflexivity | lia].
  - destruct (hexValue ch) as [d|] eqn:Hd; [|discriminate].
    apply hexValue_inv in Hd.
    intros Hv. destruct (IH _ _ Hv) as (w & Hw & -> & Hr).
    destruct (parseHexFrom (0 * 16 + d) src) as [w0|] eqn:H0.
    + destruct (IH _ _ H0) as (w' & Hw' & -> & _).
      assert (w' = w) as -> by congruence.
      exists ((0 * 16 + d) * 16 ^ Z.of_nat (String.length src) + w).
      split; [reflexivity|]. cbn [String.length].
      rewrite Nat2Z.inj_succ, Z.pow_succ_r by lia. nia.
    + exfalso. clear - Hw H0. revert Hw H0. generalize (0 * 16 + d).
      generalize 0 at 1. induction src as [|c1 src IH1]; cbn [parseHexFrom];
        [discriminate|].
      destruct (hexValue c1); [|discriminate]. intros a b. apply IH1.
Qed.

Lemma hex_compare (a : string) :
  forall b va vb,
    String.length a = String.length b ->
    parseHex a = Some va -> parseHex b = Some vb -> va < vb ->
    String.compare a b = Lt.
Proof.
  unfold parseHex.
  induction a as [|ca a IH]; intros [|cb b] va vb Hlen Ha Hb Hlt;
    try discriminate.
  - cbn in Ha, Hb. injection Ha as <-. injection Hb as <-. lia.
  - cbn [parseHexFrom] in Ha, Hb. cbn [String.length] in Hlen.
    injection Hlen as Hlen.
    destruct (hexValue ca) as [da|] eqn:Hda; [|discriminate].
    destruct (hexValue cb) as [db|] eqn:Hdb; [|discriminate].
    apply parseHexFrom_value in Ha, Hb.
    destruct Ha as (wa & Pa & -> & Ra). destruct Hb as (wb & Pb & -> & Rb).
    rewrite <- Hlen in Rb, Hlt.
    apply hexValue_inv in Hda, Hdb.
    set (P := 16 ^ Z.of_nat (String.length a)) in *.
    cbn [String.compare].
    destruct (Z.lt_trichotomy da db) as [Hd | [Hd | Hd]].
    + rewrite ascii_compare_lt by lia. reflexivity.
    + assert (ca = cb) as -> by (apply code_inj; lia).
      rewrite ascii_compare_refl. apply (IH b wa wb Hlen Pa Pb). nia.
    + exfalso. nia.
Qed.

(** X13. Generation identifiers sort as the generations do: comparing two
    identifiers as strings gives the comparison of the two counters. *)
Theorem generationID_compare (s1 s2 : Syncer)
    (H1 : 0 <= generation s1 < 2 ^ 64)
    (H2 : 0 <= generation s2 < 2 ^ 64) :
  String.compare (generationID s1) (generationID s2)
  = Z.compare (generation s1) (generation s2).
Proof.
  destruct (Sprintf_016x_parse _ H1) as [L1 P1].
  destruct (Sprintf_016x_parse _ H2) as [L2 P2].
  unfold generationID. cbn [String.append String.compare].
  change (Ascii.compare "G" "G") with Eq.
  change (Ascii.compare "-" "-") with Eq. cbv iota.
  destruct (Z.compare_spec (generation s1) (generation s2)) as [He|Hl|Hg].
  - rewrite He. apply string_compare_refl.
  - apply (hex_compare _ _ _ _ (eq_trans L1 (eq_sym L2)) P1 P2 Hl).
  - rewrite String.compare_antisym.
    now rewrite (hex_compare _ _ _ _ (eq_trans L2 (eq_sym L1)) P2 P1 Hg).
Qed.

(** ** More on the environment lifecycle *)

(** X14. [openEnv] returns a handle exactly when the engine opens the
    environment and then answers [Info]; the handle is the one the engine
    opened. *)
Theorem openEnv_returns_iff (E : Engine) (s : Syncer) (t : list event)
    (env : lmdb.Env) :
  fst (openEnv E s t) = inr env
  <-> NewWithOptions E (Path (lc s)) (Options (lc s)) = inr env
      /\ exists info, Info E env = inr info.
Proof.
  unfold openEnv, callNewWithOptions, callInfo, seq, emit, pure.
  destruct (NewWithOptions E (Path (lc s)) (Options (lc s))) as [e|env0];
    cbn [fst].
  - split; [discriminate | intros [H _]; discriminate].
  - destruct (Info E env0) as [e|info] eqn:Hinfo; cbn [fst].
    + split; [discriminate|]. intros [[= ->] [info Hi]]. congruence.
    + split.
      * intros [= ->]. split; [reflexivity | now exists info].
      * intros [[= ->] _]. reflexivity.
Qed.

Lemma openEnv_closeCount (E : Engine) (s : Syncer) (t : list event)
    (env : lmdb.Env) :
  closeCount env (snd (openEnv E s t)) = closeCount env t.
Proof.
  unfold openEnv, callNewWithOptions, callInfo, seq, emit, pure.
  destruct (NewWithOptions E (Path (lc s)) (Options (lc s))) as [e|env0];
    [|destruct (Info E env0) as [e|info]]; cbn [snd];
    rewrite <- ?app_assoc, closeCount_app; cbn; lia.
Qed.

Lemma opened_app (env : lmdb.Env) (t t' : list event) :
  opened env (t ++ t') = opened env t || opened env t'.
Proof.
  induction t as [|e t IH]; [reflexivity|].
  destruct e; cbn [app opened]; try exact IH.
  destruct r; [exact IH|]. now rewrite IH, orb_assoc.
Qed.

(** X15. [openEnv] never closes a handle, on any of its three ways out,
    and it only adds to the trace. *)
Theorem openEnv_never_closes (E : Engine) (s : Syncer) (t : list event) :
  (exists t', snd (openEnv E s t) = t ++ t')
  /\ forall env, closeCount env (snd (openEnv E s t)) = closeCount env t.
Proof.
  split; [|intros env; apply openEnv_closeCount].
  unfold openEnv, callNewWithOptions, callInfo, seq, emit, pure.
  destruct (NewWithOptions E (Path (lc s)) (Options (lc s))) as [e|env0];
    [|destruct (Info E env0) as [e|info]]; cbn [snd];
    rewrite <- ?app_assoc; eexists; reflexivity.
Qed.

(** X16. After [openEnv] has returned a handle, the trace shows that
    handle opened, and one [closeEnv] closes it exactly once; when [Close]
    reports an error, the error becomes a warning in the log and nothing
    else, and when it does not, nothing is logged. *)
Theorem openEnv_closeEnv_once (E : Engine) (s : Syncer) (t : list event)
    (env : lmdb.Env)
    (Hopen : fst (openEnv E s t) = inr env) :
  let t1 := snd (openEnv E s t) in
  let t2 := snd (closeEnv E s env t1) in
  opened env t1 = true
  /\ closeCount env t2 = S (closeCount env t)
  /\ (Close E env = None -> t2 = t1 ++ [CallClose env None])
  /\ (forall err,
        Close E env = Some err ->
        t2 = t1 ++ [ CallClose env (Some err);
                     Log WarnLevel [("error", FError err)]
                       "Env close returned error" ]).
Proof.
  intros t1 t2. split.
  - unfold t1. revert Hopen.
    unfold openEnv, callNewWithOptions, callInfo, seq, emit, pure.
    destruct (NewWithOptions E (Path (lc s)) (Options (lc s))) as [e|env0];
      [discriminate|].
    destruct (Info E env0) as [e|info]; [discriminate|].
    cbn [fst snd]. intros [= ->]. rewrite <- !app_assoc, opened_app.
    cbn [app opened]. now rewrite Z.eqb_refl, orb_true_r.
  - unfold t2. rewrite closeEnv_trace. cbn [snd]. split.
    + rewrite closeCount_app. unfold t1. rewrite openEnv_closeCount.
      cbn [closeCount]. rewrite Z.eqb_refl.
      destruct (Close E env); cbn [closeCount]; lia.
    + split; [intros -> | intros err ->]; reflexivity.
Qed.


(** ** More on the stats monitor *)

Lemma statsLoop_ticks (s : Syncer) (env : lmdb.Env) (n : nat)
    (sel : list selected) :
  statsLoop s env (repeat TickerC n ++ sel)
  = repeat (StatsLog env (LMDBScrapeSmaps (c s))) n ++ statsLoop s env sel.
Proof.
  induction n as [|n IH]; [reflexivity|].
  cbn [repeat app statsLoop]. now rewrite IH.
Qed.

(** X17. The loop of the stats goroutine samples once for every tick, with
    the environment and the smaps switch it was given.  When the context is
    done it cancels its scope, stops the ticker and returns: ticks that
    follow are not sampled.  Until then it releases nothing. *)
Theorem statsLoop_until_done (s : Syncer) (env : lmdb.Env) (n : nat)
    (rest : list selected) :
  statsLoop s env (repeat TickerC n ++ CtxDone :: rest)
  = repeat (StatsLog env (LMDBScrapeSmaps (c s))) n ++ [Cancel; TickerStop]
  /\ statsLoop s env (repeat TickerC n)
     = repeat (StatsLog env (LMDBScrapeSmaps (c s))) n.
Proof.
  split.
  - now rewrite statsLoop_ticks.
  - rewrite <- (app_nil_r (repeat TickerC n)), statsLoop_ticks.
    apply app_nil_r.
Qed.

Lemma filter_isStatsLog_repeat (env : lmdb.Env) (b : bool) (n : nat)
    (tl : list bgEvent) :
  filter isStatsLog (repeat (StatsLog env b) n ++ tl)
  = repeat (StatsLog env b) n ++ filter isStatsLog tl.
Proof.
  induction n as [|n IH]; [reflexivity|].
  cbn [repeat app filter isStatsLog]. now rewrite IH.
Qed.

(** X18. With a positive interval [startStatsLogger] starts exactly one
    goroutine, under the context and with the interval it was given, and
    that goroutine makes one sampling call per tick until the context is
    done. *)
Theorem startStatsLogger_enabled_samples (s : Syncer) (ctx : Context)
    (env : lmdb.Env) (t : list event)
    (Hinterval : 0 < LMDBLogStatsInterval (c s)) :
  snd (startStatsLogger s ctx env t)
  = t ++ [ Log InfoLevel
             [("interval", FNumber (LMDBLogStatsInterval (c s)))]
             "Enabled LMDB stats logging";
           Go ctx (LMDBLogStatsInterval (c s)) (statsLoop s env) ]
  /\ List.length (goroutines (snd (startStatsLogger s ctx env t)))
     = S (List.length (goroutines t))
  /\ forall n rest,
       samplingCalls (snd (startStatsLogger s ctx env []))
         (repeat TickerC n ++ CtxDone :: rest)
       = repeat (StatsLog env (LMDBScrapeSmaps (c s))) n.
Proof.
  unfold startStatsLogger.
  destruct (Z.leb_spec (LMDBLogStatsInterval (c s)) 0); [lia|].
  unfold seq, emit. cbn [snd]. rewrite <- app_assoc. cbn [app].
  split; [reflexivity|]. split.
  - rewrite goroutines_app, length_app. cbn. lia.
  - intros n rest. unfold samplingCalls. cbn [goroutines flat_map app].
    rewrite app_nil_r, statsLoop_ticks, filter_isStatsLog_repeat.
    cbn. apply app_nil_r.
Qed.

(** ** Keys that repeat further apart *)

(** X19. Only neighbours are compared: a table without several values per
    key whose first and third entries have the same key, with another key
    between them, is read, and the snapshot holds that key twice. *)
Theorem readDBI_non_adjacent_duplicate (s : Syncer) (txn : Txn)
    (dbiName : string) (rawValues : bool) (dbi : lmdb.DBI) (stat : lmdb.Stat)
    (dbiFlags : Z) (a b d : lmdbenv.KV)
    (Hopen : OpenDBI txn dbiName 0 = inr dbi)
    (Hstat : Stat txn dbi = inr stat)
    (Hread : ReadDBI txn dbi = inr [a; b; d])
    (Hflags : Flags txn dbi = inr dbiFlags)
    (Hsingle : isDupSort dbiFlags = false)
    (Hvals : rawValues = false -> Forall hasHeader [a; b; d])
    (Hsame : lmdbenv.Key a = lmdbenv.Key d)
    (Hother : lmdbenv.Key a <> lmdbenv.Key b) :
  exists msg,
    readDBI s txn dbiName rawValues = inr msg
    /\ map snapshot.Key (snapshot.Entries msg)
       = [lmdbenv.Key a; lmdbenv.Key b; lmdbenv.Key a].
Proof.
  eexists. split.
  - apply (readDBI_ok s txn dbiName dbi stat [a; b; d] dbiFlags
             Hopen Hstat Hread Hflags rawValues);
      [congruence | exact Hvals |].
    intros _. apply chain_distinctNeighbours. cbn [chain].
    repeat split; congruence.
  - cbn [snapshot.Entries map].
    destruct rawValues; cbn [kvOf snapshot.Key]; now rewrite Hsame.
Qed.

(** ** Names of special tables *)

Lemma prefix_trans (a : string) :
  forall b d,
    String.prefix a b = true -> String.prefix b d = true ->
    String.prefix a d = true.
Proof.
  induction a as [|x a IH]; intros b d Hab Hbd; [now destruct d|].
  destruct b as [|y b]; [discriminate|].
  destruct d as [|z d]; [discriminate|].
  cbn [String.prefix] in *.
  destruct (ascii_dec x y) as [->|]; [|discriminate].
  destruct (ascii_dec y z) as [->|]; [|discriminate].
  now apply (IH b d).
Qed.

(** X20. Every table named as a shadow database carries the prefix of the
    special tables that must not be synced. *)
Theorem shadow_prefix_is_special (name : string)
    (Hshadow : String.prefix SyncDBIShadowPrefix name = true) :
  String.prefix SyncDBIPrefix name = true.
Proof.
  apply (prefix_trans SyncDBIPrefix SyncDBIShadowPrefix name);
    [reflexivity | exact Hshadow].
Qed.

(** * The further properties at concrete inputs *)

Lemma readDBI_raw_values_witness :
  exists msg,
    readDBI (testSyncer "node" 0 false) (tableTxn "db" 0 tableShort) "db" true
    = inr msg
    /\ List.length (snapshot.Entries msg) = List.length tableShort
    /\ forall i item,
         nth_error tableShort i = Some item ->
         nth_error (snapshot.Entries msg) i
         = Some {| snapshot.Key := lmdbenv.Key item;
                   snapshot.Value := lmdbenv.Val item;
                   snapshot.TimestampNano := 0 |}.
Proof.
  apply (readDBI_raw_values (testSyncer "node" 0 false)
           (tableTxn "db" 0 tableShort) "db" 1
           {| lmdb.Entries := 3 |} tableShort 0
           eq_refl eq_refl eq_refl eq_refl).
  - discriminate.
  - intros _. distinct_keys.
Defined.

Lemma readDBI_succeeds_iff_witness :
  readDBI (testSyncer "node" 0 false) (tableTxn "db" 0 tableBA) "db" false
  = inr {| snapshot.Name := "db";
           snapshot.Entries := map (kvOf false) tableBA;
           snapshot.Flags := 0 |}.
Proof.
  apply (proj2 (readDBI_succeeds_iff (testSyncer "node" 0 false)
                  (tableTxn "db" 0 tableBA) "db" 1
                  {| lmdb.Entries := 2 |} tableBA 0
                  eq_refl eq_refl eq_refl eq_refl false _)).
  split; [discriminate|]. split; [intros _; has_headers|].
  split; [intros _; distinct_keys | reflexivity].
Defined.

Lemma readDBI_error_kinds_witness :
  (ErrNoTimestamp "db" [x62] = errDupSortUnsupported "db"
   /\ isDupSort 0 = true
   /\ DupSortHack (lc (testSyncer "node" 0 false)) = false)
  \/ (ErrNoTimestamp "db" [x62] = errDuplicateKey "db"
      /\ isDupSort 0 = false)
  \/ (false = false
      /\ exists item,
           In item tableShort /\ ~ hasHeader item
           /\ ErrNoTimestamp "db" [x62]
              = ErrNoTimestamp "db" (lmdbenv.Key item)).
Proof.
  apply (readDBI_error_kinds (testSyncer "node" 0 false)
           (tableTxn "db" 0 tableShort) "db" 1
           {| lmdb.Entries := 3 |} tableShort 0
           eq_refl eq_refl eq_refl eq_refl false
           (ErrNoTimestamp "db" [x62])).
  reflexivity.
Defined.

Lemma readDBI_reencode_witness :
  exists kv,
    nth_error (map (kvOf false) tableBA) 0 = Some kv
    /\ snapshot.Key kv = [x62]
    /\ binary.BigEndian_PutUint64 (snapshot.TimestampNano kv)
         ++ snapshot.Value kv
       = binary.BigEndian_PutUint64 1700000000000000000 ++ [x68; x69]
    /\ 0 <= snapshot.TimestampNano kv < 2 ^ 64.
Proof.
  apply (readDBI_reencode (testSyncer "node" 0 false)
           (tableTxn "db" 0 tableBA) "db" 1
           {| lmdb.Entries := 2 |} tableBA 0
           eq_refl eq_refl eq_refl eq_refl
           {| snapshot.Name := "db";
              snapshot.Entries := map (kvOf false) tableBA;
              snapshot.Flags := 0 |}
           0%nat (stamped [x62] 1700000000000000000 [x68; x69])).
  - reflexivity.
  - reflexivity.
Defined.

Lemma readDBI_raw_of_non_raw_witness :
  exists raw,
    readDBI (testSyncer "node" 0 false) (tableTxn "db" 0 tableBA) "db" true
    = inr raw
    /\ map snapshot.Key (snapshot.Entries raw)
       = map snapshot.Key (map (kvOf false) tableBA)
    /\ map snapshot.Value (snapshot.Entries raw)
       = map (fun kv =>
                binary.BigEndian_PutUint64 (snapshot.TimestampNano kv)
                  ++ snapshot.Value kv)
             (map (kvOf false) tableBA).
Proof.
  apply (readDBI_raw_of_non_raw (testSyncer "node" 0 false)
           (tableTxn "db" 0 tableBA) "db" 1
           {| lmdb.Entries := 2 |} tableBA 0
           eq_refl eq_refl eq_refl eq_refl
           {| snapshot.Name := "db";
              snapshot.Entries := map (kvOf false) tableBA;
              snapshot.Flags := 0 |}).
  reflexivity.
Defined.

Lemma readDBI_engine_error_witness :
  readDBI (testSyncer "node" 0 false) (tableTxn "db" 4 tableKK) "other" false
  = inl (EngineError "MDB_NOTFOUND").
Proof.
  apply (readDBI_engine_error (testSyncer "node" 0 false)
           (tableTxn "db" 4 tableKK) "other" false
           (EngineError "MDB_NOTFOUND")).
  left. reflexivity.
Defined.

Lemma readDBI_non_adjacent_duplicate_witness :
  exists msg,
    readDBI (testSyncer "node" 0 false)
      (tableTxn "db" 0
         [stamped [x6b] 1 []; stamped [x6a] 2 []; stamped [x6b] 3 []])
      "db" false
    = inr msg
    /\ map snapshot.Key (snapshot.Entries msg) = [[x6b]; [x6a]; [x6b]].
Proof.
  apply (readDBI_non_adjacent_duplicate (testSyncer "node" 0 false)
           (tableTxn "db" 0
              [stamped [x6b] 1 []; stamped [x6a] 2 []; stamped [x6b] 3 []])
           "db" false 1 {| lmdb.Entries := 3 |} 0
           (stamped [x6b] 1 []) (stamped [x6a] 2 []) (stamped [x6b] 3 [])
           eq_refl eq_refl eq_refl eq_refl).
  - reflexivity.
  - intros _. has_headers.
  - reflexivity.
  - discriminate.
Defined.

Lemma instanceID_unsafe_collide_witness :
  instanceID "h1" (testSyncer "db01.example" 0 false)
  = instanceID "h2" (testSyncer "db01_example" 0 false).
Proof.
  apply (instanceID_unsafe_collide "h1" "h2"
           (testSyncer "db01.example" 0 false)
           (testSyncer "db01_example" 0 false)
           "db01" "example" "." "_");
    try reflexivity.
Defined.

Lemma generationID_round_trip_witness :
  exists digits,
    generationID (withGeneration 3735928559) = ("G-" ++ digits)%string
    /\ String.length digits = 16%nat
    /\ parseHex digits = Some 3735928559.
Proof.
  apply (generationID_round_trip (withGeneration 3735928559)).
  cbn. lia.
Defined.

Lemma generationID_injective_witness :
  generation (withGeneration 1) = generation (withGeneration 1).
Proof.
  apply (generationID_injective (withGeneration 1) (withGeneration 1)).
  - cbn. lia.
  - cbn. lia.
  - reflexivity.
Defined.

Lemma generationID_compare_witness :
  String.compare (generationID (withGeneration 9))
    (generationID (withGeneration 10))
  = Lt.
Proof.
  apply (generationID_compare (withGeneration 9) (withGeneration 10));
    cbn; lia.
Defined.

Lemma openEnv_closeEnv_once_witness :
  let E := testEngine (inr {| lmdb.MapSize := 1048576; lmdb.LastTxnID := 3 |})
             (Some (EngineError "EBUSY")) in
  let s := testSyncer "node" 0 false in
  let t1 := snd (openEnv E s []) in
  let t2 := snd (closeEnv E s 7 t1) in
  opened 7 t1 = true
  /\ closeCount 7 t2 = 1%nat
  /\ (Close E 7 = None -> t2 = t1 ++ [CallClose 7 None])
  /\ (forall err,
        Close E 7 = Some err ->
        t2 = t1 ++ [ CallClose 7 (Some err);
                     Log WarnLevel [("error", FError err)]
                       "Env close returned error" ]).
Proof.
  apply (openEnv_closeEnv_once
           (testEngine
              (inr {| lmdb.MapSize := 1048576; lmdb.LastTxnID := 3 |})
              (Some (EngineError "EBUSY")))
           (testSyncer "node" 0 false) [] 7).
  reflexivity.
Defined.

Lemma startStatsLogger_enabled_samples_witness :
  snd (startStatsLogger (testSyncer "node" 30 false) 1 7 [])
  = [ Log InfoLevel [("interval", FNumber 30)] "Enabled LMDB stats logging";
      Go 1 30 (statsLoop (testSyncer "node" 30 false) 7) ]
  /\ List.length
       (goroutines (snd (startStatsLogger (testSyncer "node" 30 false) 1 7 [])))
     = 1%nat
  /\ forall n rest,
       samplingCalls (snd (startStatsLogger (testSyncer "node" 30 false) 1 7 []))
         (repeat TickerC n ++ CtxDone :: rest)
       = repeat (StatsLog 7 false) n.
Proof.
  apply (startStatsLogger_enabled_samples (testSyncer "node" 30 false) 1 7 []).
  cbn. lia.
Defined.

Lemma shadow_prefix_is_special_witness :
  String.prefix SyncDBIPrefix "_sync_records" = true.
Proof.
  apply (shadow_prefix_is_special "_sync_records"). reflexivity.
Defined.

